(** * pyPicoSDK: the acquisition engine of [picosdk/picosdk.py]

    A shallow embedding of the [PicoScopeBase], [ps6000a] and [ps5000a]
    classes, and the properties of the engine's status handler, channel
    table, buffer allocation, pre/post-trigger split and ADC/mV conversion.

    Layout:
    - [Binary64]: Python's [float] (IEEE-754 binary64, round to nearest,
      ties to even) as exact rationals plus infinities and NaN;
    - [Py]: the fragment of Python's semantics the engine relies on
      (numbers, exceptions, insertion-ordered dicts, list indexing);
    - [Engine]: the classes themselves, written in a state-and-exception
      monad over a world made of the session object, the object heap, the
      log of native calls and the console;
    - the theorems. *)

From Stdlib Require Import ZArith QArith Qabs Lia Lqa List String Bool.
From Stdlib Require Import Floats.
From stdpp Require Import base gmap.
Import ListNotations.

Local Open Scope Z_scope.

(* ===================================================================== *)
(** * Binary64: Python floats *)
(* ===================================================================== *)

Module Binary64.

(** A Python float is a finite binary64 value (kept as the exact rational
    it denotes), an infinity or a NaN.  Signed zeros are identified: the
    sign of a zero is only observable through operations the engine does
    not use (division by zero raises in Python whatever the sign). *)
Inductive float : Type :=
| Fin (q : Q)
| Inf (negative : bool)
| NaN.

(** Every finite binary64 value is an integer multiple of [2^-1074];
    rounding is done on the value scaled by [2^1074]. *)
Definition emin_shift : Z := 1074.
Definition prec : Z := 53.
Definition overflow_threshold : Z := 2 ^ (1024 + emin_shift).

(** Round the non-negative rational [a/b] to the nearest integer, ties to
    even. *)
Definition rne (a b : Z) : Z :=
  let q := a / b in
  let r := a mod b in
  match (2 * r ?= b) with
  | Lt => q
  | Gt => q + 1
  | Eq => if Z.even q then q else q + 1
  end.

(** [round_scaled N d]: the binary64 neighbour of [N/d] (a non-negative
    rational already scaled by [2^1074]), as an integer.  [j] is the
    exponent of the unit in the last place: 53 significant bits, never
    below the subnormal spacing. *)
Definition round_scaled (N d : Z) : Z :=
  let j := Z.max (Z.log2 (N / d) - (prec - 1)) 0 in
  rne N (d * 2 ^ j) * 2 ^ j.

Definition of_scaled (negative : bool) (M : Z) : float :=
  if overflow_threshold <=? M then Inf negative
  else Fin (Qred ((if negative then - M else M) # Z.to_pos (2 ^ emin_shift))).

(** Correctly rounded binary64 value of an exact rational. *)
Definition round (x : Q) : float :=
  let n := Qnum x in
  let d := Zpos (Qden x) in
  of_scaled (n <? 0) (round_scaled (Z.abs n * 2 ^ emin_shift) d).

Definition fmul (x y : float) : float :=
  match x, y with
  | NaN, _ | _, NaN => NaN
  | Fin a, Fin b => round (a * b)
  | Inf s, Inf t => Inf (xorb s t)
  | Inf s, Fin b | Fin b, Inf s =>
      match Qnum b ?= 0 with
      | Eq => NaN
      | Lt => Inf (negb s)
      | Gt => Inf s
      end
  end.

(** Division by a non-zero float ([None] when the divisor is zero: the
    caller raises [ZeroDivisionError]). *)
Definition fdiv (x y : float) : option float :=
  match x, y with
  | _, Fin b =>
      match Qnum b ?= 0 with
      | Eq => None
      | c =>
          Some match x with
               | Fin a => round (a / b)
               | Inf s => Inf (if c is Lt then negb s else s)
               | NaN => NaN
               end
      end
  | NaN, _ | _, NaN => Some NaN
  | Inf _, Inf _ => Some NaN
  | Fin _, Inf _ => Some (Fin 0)
  end.

(** Truncation toward zero of a finite value. *)
Definition trunc (q : Q) : Z := Z.quot (Qnum q) (Zpos (Qden q)).

(** [(float)x] in C: the binary32 neighbour of a binary64 value (24
    significant bits, subnormal spacing [2^-149], overflow to infinity),
    again as the exact rational it denotes. *)
Definition single (x : float) : float :=
  match x with
  | Fin q =>
      let n := Qnum q in
      let N := Z.abs n * 2 ^ 149 in
      let d := Zpos (Qden q) in
      let j := Z.max (Z.log2 (N / d) - 23) 0 in
      let M := rne N (d * 2 ^ j) * 2 ^ j in
      if 2 ^ (128 + 149) <=? M then Inf (n <? 0)
      else Fin (Qred ((if n <? 0 then - M else M) # Z.to_pos (2 ^ 149)))
  | _ => x
  end.

End Binary64.

(* ===================================================================== *)
(** * Py: the Python fragment used by the engine *)
(* ===================================================================== *)

Module Py.
Import Binary64.

(** Exceptions the engine can raise: Python's built-in ones, the
    [ArgumentError] of ctypes and the [PicoSDKException] class declared
    at the top of [picosdk.py]. *)
Inductive exn : Type :=
| KeyError (key : Z)
| IndexError
| TypeError
| ValueError
| ZeroDivisionError
| OverflowError
| MemoryError
| ArgumentError
| PicoSDKException (msg : string).

Inductive result (A : Type) : Type :=
| Ok (a : A)
| Raise (e : exn).
Arguments Ok {A} a.
Arguments Raise {A} e.

Definition rbind {A B} (r : result A) (k : A -> result B) : result B :=
  match r with
  | Ok a => k a
  | Raise e => Raise e
  end.

(** Numbers: [int] (unbounded) and [float]. *)
Inductive num : Type :=
| Int (z : Z)
| Float (f : float).

(** [float(x)]: an int too large for binary64 raises. *)
Definition to_float (x : num) : result float :=
  match x with
  | Float f => Ok f
  | Int z =>
      match round (inject_Z z) with
      | Inf _ => Raise OverflowError
      | f => Ok f
      end
  end.

(** [x / y]: true division.  Between two ints the quotient is rounded
    once, from the exact rational; otherwise both operands are converted
    to float first. *)
Definition truediv (x y : num) : result float :=
  match x, y with
  | Int a, Int b =>
      if b =? 0 then Raise ZeroDivisionError
      else match round (inject_Z a / inject_Z b) with
           | Inf _ => Raise OverflowError
           | f => Ok f
           end
  | _, _ =>
      rbind (to_float x) (fun a =>
      rbind (to_float y) (fun b =>
      match fdiv a b with
      | None => Raise ZeroDivisionError
      | Some f => Ok f
      end))
  end.

(** [x * y]. *)
Definition mul (x y : num) : result num :=
  match x, y with
  | Int a, Int b => Ok (Int (a * b))
  | _, _ =>
      rbind (to_float x) (fun a =>
      rbind (to_float y) (fun b => Ok (Float (fmul a b))))
  end.

(** [int(x)]: truncation toward zero. *)
Definition int (x : num) : result Z :=
  match x with
  | Int z => Ok z
  | Float (Fin q) => Ok (trunc q)
  | Float (Inf _) => Raise OverflowError
  | Float NaN => Raise ValueError
  end.

(** [l[i]] on a list: negative indices count from the end. *)
Definition list_getitem {A} (l : list A) (i : Z) : result A :=
  let n := Z.of_nat (length l) in
  let j := if i <? 0 then i + n else i in
  if (0 <=? j) && (j <? n)
  then match nth_error l (Z.to_nat j) with
       | Some a => Ok a
       | None => Raise IndexError
       end
  else Raise IndexError.

(** Insertion-ordered dictionaries with integer keys. *)
Section Dict.
Context {V : Type}.

Definition dict : Type := list (Z * V).

Fixpoint dict_get (d : dict) (k : Z) : option V :=
  match d with
  | [] => None
  | (k', v) :: d' => if k' =? k then Some v else dict_get d' k
  end.

(** [d[k] = v]: an existing key keeps its position, a new one goes
    last. *)
Fixpoint dict_set (d : dict) (k : Z) (v : V) : dict :=
  match d with
  | [] => [(k, v)]
  | (k', v') :: d' =>
      if k' =? k then (k', v) :: d' else (k', v') :: dict_set d' k v
  end.

Definition dict_keys (d : dict) : list Z := map fst d.

Definition dict_getitem (d : dict) (k : Z) : result V :=
  match dict_get d k with
  | Some v => Ok v
  | None => Raise (KeyError k)
  end.
End Dict.
Arguments dict V : clear implicits.

(** [ctypes.c_double(x)] and [ctypes.c_float(x)]: the number is first
    converted as by [float(x)], so an int beyond binary64 raises; a
    [c_float] then keeps the binary32 neighbour. *)
Definition c_double (x : num) : result float := to_float x.

Definition c_float (x : num) : result float :=
  rbind (to_float x) (fun d => Ok (single d)).

(** Fixed-width C integers as read back through [.value]. *)
Definition wrap_signed (bits : Z) (z : Z) : Z :=
  (z + 2 ^ (bits - 1)) mod 2 ^ bits - 2 ^ (bits - 1).
Definition wrap_unsigned (bits : Z) (z : Z) : Z := z mod 2 ^ bits.

Inductive ctype : Type := c_int8 | c_int16 | c_int32 | c_int64 | c_uint32.

Definition ctype_value (t : ctype) (z : Z) : Z :=
  match t with
  | c_int8 => wrap_signed 8 z
  | c_int16 => wrap_signed 16 z
  | c_int32 => wrap_signed 32 z
  | c_int64 => wrap_signed 64 z
  | c_uint32 => wrap_unsigned 32 z
  end.

(** [ctypes.sizeof(t)], in bytes. *)
Definition sizeof (t : ctype) : Z :=
  match t with
  | c_int8 => 1
  | c_int16 => 2
  | c_int32 | c_uint32 => 4
  | c_int64 => 8
  end.

End Py.

(* ===================================================================== *)
(** * Engine: [picosdk/picosdk.py] *)
(* ===================================================================== *)

Module Engine.
Import Binary64 Py.

(** ** Objects, native calls and the world *)

(** Heap locations. *)
Abbreviation loc := nat.

(** Heap objects the engine creates and passes around by reference:
    ctypes arrays (capture buffers), Python lists (converted buffers) and
    the channel-to-buffer dictionaries. *)
Inductive obj : Type :=
| CArray (elem : ctype) (data : list Z)
| PyList (items : list num)
| PyDict (d : dict loc).

(** The argument objects handed to a [ctypes] call site. *)
Inductive carg : Type :=
| AInt (z : Z)                 (* a Python int or enum member *)
| ABool (b : bool)
| ANone
| ABytes (s : string)          (* [serial_number.encode()] *)
| AHandle (h : Z)              (* [self.handle], a [c_short] by value *)
| AByRefHandle                 (* [ctypes.byref(self.handle)] *)
| AOut (t : ctype)             (* [ctypes.byref(x)] of a fresh local scalar *)
| AByRefArray (buffer : loc)   (* [ctypes.byref(buffer)] *)
| ADouble (x : num)            (* a [ctypes.c_double] holding [x] *)
| AFloat (x : num).            (* a [ctypes.c_float] holding [x] *)

Inductive native_call : Type :=
| Call (name : string) (args : list carg).

(** What an entry point of the native library answers: its status and
    the values it stores through the by-reference arguments, in order. *)
Record reply : Type := { reply_status : Z; reply_outputs : list Z }.

(** The native driver is external: it is an arbitrary function of the
    calls made so far and of the current call.  It stands for the entry
    point together with the conversion ctypes applies to the arguments
    it accepts (no [argtypes] are declared, so an int reaches the entry
    point as a C [int]). *)
Definition driver : Type := list native_call -> native_call -> reply.

(** The constants of [constants.py] and [error_list.py] the engine reads,
    and the limits of the platform it runs on. *)
Record constants : Type := {
  (** Modelled from the spec: [error_list.ERROR_STRING], the fixed
      code-to-message table, subscripted by the status code. *)
  ERROR_STRING : gmap Z string;
  (** Modelled from the spec: [constants.RANGE_LIST], the fixed ordered
      table from range enum to millivolt span. *)
  RANGE_LIST : list Z;
  POWER_SOURCE_SUPPLY_NOT_CONNECTED : Z;
  DATA_TYPE_INT8_T : Z;
  DATA_TYPE_INT16_T : Z;
  DATA_TYPE_INT32_T : Z;
  DATA_TYPE_INT64_T : Z;
  DATA_TYPE_UINT32_T : Z;
  (** The width of a C [long] (32 bits where the library is a Windows
      DLL, 64 on other 64-bit systems): ctypes converts an int argument
      through it. *)
  C_LONG_BITS : Z;
  (** [sys.maxsize], the largest object size. *)
  PY_SSIZE_T_MAX : Z;
  (** Whether the allocator, with the given objects alive, grants a
      block of the given number of bytes. *)
  allocates : list obj -> Z -> bool
}.

(** The attributes set by [PicoScopeBase.__init__]. *)
Record PicoScopeBase : Type := {
  handle : Z;
  range : dict Z;
  resolution : option Z;
  max_adc_value : option Z;
  min_adc_value : option Z
}.

Record world : Type := {
  self : PicoScopeBase;
  heap : list obj;
  calls : list native_call;
  stdout : list string
}.

(** [PicoScopeBase.__init__] *)
Definition __init__ : PicoScopeBase :=
  {| handle := 0; range := []; resolution := None;
     max_adc_value := None; min_adc_value := None |}.

Definition new_world : world :=
  {| self := __init__; heap := []; calls := []; stdout := [] |}.

(** ** The state-and-exception monad *)

Definition M (A : Type) : Type := world -> result A * world.

Definition ret {A} (a : A) : M A := fun w => (Ok a, w).
Definition raise {A} (e : exn) : M A := fun w => (Raise e, w).
Definition bind {A B} (m : M A) (k : A -> M B) : M B :=
  fun w => match m w with
           | (Ok a, w') => k a w'
           | (Raise e, w') => (Raise e, w')
           end.
Definition lift {A} (r : result A) : M A := fun w => (r, w).
Definition get_self : M PicoScopeBase := fun w => (Ok (self w), w).
Definition set_self (s : PicoScopeBase) : M unit :=
  fun w => (Ok tt, {| self := s; heap := heap w; calls := calls w;
                      stdout := stdout w |}).

Notation "x <- m ;; k" := (bind m (fun x => k))
  (at level 100, m at next level, right associativity).
Notation "m ;;; k" := (bind m (fun _ => k))
  (at level 100, right associativity).

Fixpoint for_each {A} (l : list A) (body : A -> M unit) : M unit :=
  match l with
  | [] => ret tt
  | a :: l' => body a ;;; for_each l' body
  end.

Fixpoint map_m {A B} (f : A -> M B) (l : list A) : M (list B) :=
  match l with
  | [] => ret []
  | a :: l' => b <- f a ;; bs <- map_m f l' ;; ret (b :: bs)
  end.

Definition print (line : string) : M unit :=
  fun w => (Ok tt, {| self := self w; heap := heap w; calls := calls w;
                      stdout := stdout w ++ [line] |}).

(** ** The heap *)

Definition alloc (o : obj) : M loc :=
  fun w => (Ok (length (heap w)),
            {| self := self w; heap := heap w ++ [o]; calls := calls w;
               stdout := stdout w |}).

Definition deref (l : loc) : M obj :=
  fun w => match heap w !! l with
           | Some o => (Ok o, w)
           | None => (Raise TypeError, w)
           end.

Definition store (l : loc) (o : obj) : M unit :=
  fun w => (Ok tt, {| self := self w; heap := <[l := o]> (heap w);
                      calls := calls w; stdout := stdout w |}).

(** [for x in o]: the items an object yields when iterated. *)
Definition items_of (o : obj) : list num :=
  match o with
  | CArray _ data => map Int data
  | PyList items => items
  | PyDict d => map Int (dict_keys d)
  end.

(** [d[k]] and [d[k] = v] on a dictionary object. *)
Definition getitem (d : loc) (k : Z) : M loc :=
  o <- deref d ;;
  match o with
  | PyDict m => lift (dict_getitem m k)
  | _ => raise TypeError
  end.

Definition setitem (d : loc) (k : Z) (v : loc) : M unit :=
  o <- deref d ;;
  match o with
  | PyDict m => store d (PyDict (dict_set m k v))
  | _ => raise TypeError
  end.

(** [for k in d] on a channel-to-buffer dictionary: its keys, in
    insertion order. *)
Definition keys_of (d : loc) : M (list Z) :=
  o <- deref d ;;
  match o with
  | PyDict m => ret (dict_keys m)
  | _ => raise TypeError
  end.

(** [(t * samples)()]: a zero-initialised ctypes array.  The length must
    fit an index ([OverflowError]) and be non-negative ([ValueError]),
    the array must not exceed the largest object size ([OverflowError],
    array too large), and the allocator must grant its bytes
    ([MemoryError]). *)
Definition new_array (K : constants) (t : ctype) (samples : Z) : M loc :=
  if (samples <? - PY_SSIZE_T_MAX K - 1) || (PY_SSIZE_T_MAX K <? samples)
  then raise OverflowError
  else if samples <? 0 then raise ValueError
  else if PY_SSIZE_T_MAX K / sizeof t <? samples then raise OverflowError
  else fun w =>
         if allocates K (heap w) (samples * sizeof t)
         then alloc (CArray t (repeat 0 (Z.to_nat samples))) w
         else (Raise MemoryError, w).

(** ** [class PicoScopeBase] *)

Section PicoScopeBase.
Variable K : constants.
(** [self.dll], the library loaded by the subclass. *)
Variable dll : driver.
(** [self._unit_prefix_n] *)
Variable _unit_prefix_n : string.

(** What [self._get_attr_function(function_name)] resolves to. *)
Definition _get_attr_function (function_name : string) : string :=
  String.append _unit_prefix_n function_name.

(** The values the driver stored through the by-reference arguments:
    the session handle is updated in place, the local scalars are
    collected for the caller to read back with [.value]. *)
Fixpoint write_outs (args : list carg) (outs : list Z) (h : Z)
  : Z * list Z :=
  match args with
  | [] => (h, [])
  | AByRefHandle :: args' =>
      match outs with
      | o :: outs' => write_outs args' outs' (ctype_value c_int16 o)
      | [] => write_outs args' [] h
      end
  | AOut t :: args' =>
      let '(o, outs') := match outs with
                         | o :: outs' => (o, outs')
                         | [] => (0, [])
                         end in
      let '(h', vs) := write_outs args' outs' h in
      (h', ctype_value t o :: vs)
  | _ :: args' => write_outs args' outs h
  end.

(** Whether ctypes can convert an argument.  With no [argtypes]
    declared an int is converted through a C [unsigned long] or, failing
    that, a C [long]; ctypes objects, [None], bytes and booleans always
    pass. *)
Definition marshals (a : carg) : bool :=
  match a with
  | AInt z => (- 2 ^ (C_LONG_BITS K - 1) <=? z) && (z <? 2 ^ C_LONG_BITS K)
  | _ => true
  end.

(** Calling an entry point of the library.  If an argument cannot be
    converted, ctypes raises [ArgumentError] and the entry point is not
    reached.  Otherwise the call is issued, the driver's stores take
    effect, and the status comes back as a C [int] (the default
    [restype] of ctypes). *)
Definition native (name : string) (args : list carg) : M (Z * list Z) :=
  fun w =>
    if forallb marshals args then
      let c := Call name args in
      let r := dll (calls w) c in
      let '(h, vs) := write_outs args (reply_outputs r) (handle (self w)) in
      (Ok (ctype_value c_int32 (reply_status r), vs),
       {| self := {| handle := h; range := range (self w);
                     resolution := resolution (self w);
                     max_adc_value := max_adc_value (self w);
                     min_adc_value := min_adc_value (self w) |};
          heap := heap w; calls := calls w ++ [c]; stdout := stdout w |})
    else (Raise ArgumentError, w).

(** [close_unit]: the status of [CloseUnit] is not looked at. *)
Definition close_unit : M unit :=
  s <- get_self ;;
  native (_get_attr_function "CloseUnit") [AHandle (handle s)] ;;;
  ret tt.

Definition _error_handler (status : Z) : M unit :=
  error_code <- lift (match ERROR_STRING K !! status with
                      | Some m => Ok m
                      | None => Raise (KeyError status)
                      end) ;;
  if negb (status =? 0) then
    if status =? POWER_SOURCE_SUPPLY_NOT_CONNECTED K then
      print "WARNING: Power supply not connected" ;;;
      ret tt
    else
      close_unit ;;;
      raise (PicoSDKException error_code)
  else ret tt.

(** Returns the status and, for the caller's convenience, the scalars
    stored by the driver. *)
Definition _call_attr_function (function_name : string) (args : list carg)
  : M (Z * list Z) :=
  r <- native (_get_attr_function function_name) args ;;
  _error_handler (fst r) ;;;
  ret r.

Definition set_resolution (r : Z) : M unit :=
  s <- get_self ;;
  set_self {| handle := handle s; range := range s; resolution := Some r;
              max_adc_value := max_adc_value s;
              min_adc_value := min_adc_value s |}.

Definition set_max_adc_value (v : Z) : M unit :=
  s <- get_self ;;
  set_self {| handle := handle s; range := range s;
              resolution := resolution s; max_adc_value := Some v;
              min_adc_value := min_adc_value s |}.

Definition set_min_adc_value (v : Z) : M unit :=
  s <- get_self ;;
  set_self {| handle := handle s; range := range s;
              resolution := resolution s;
              max_adc_value := max_adc_value s;
              min_adc_value := Some v |}.

(** [self.range[channel] = range] *)
Definition set_range (channel rng : Z) : M unit :=
  s <- get_self ;;
  set_self {| handle := handle s; range := dict_set (range s) channel rng;
              resolution := resolution s;
              max_adc_value := max_adc_value s;
              min_adc_value := min_adc_value s |}.

Definition _open_unit (serial_number : option string) (res : Z) : M unit :=
  let serial_number := match serial_number with
                       | Some s => ABytes s
                       | None => ANone
                       end in
  _call_attr_function "OpenUnit" [AByRefHandle; serial_number; AInt res] ;;;
  set_resolution res.

Definition _get_adc_limits : M (Z * Z) :=
  s <- get_self ;;
  match resolution s with
  | None =>
      raise (PicoSDKException
               "Device has not been initialized, use open_unit()")
  | Some res =>
      r <- _call_attr_function "GetAdcLimits"
             [AHandle (handle s); AInt res; AOut c_int32; AOut c_int32] ;;
      ret (nth 0 (snd r) 0, nth 1 (snd r) 0)
  end.

Definition _get_maximum_adc_value : M Z :=
  s <- get_self ;;
  r <- _call_attr_function "MaximumValue"
         [AHandle (handle s); AOut c_int16] ;;
  ret (nth 0 (snd r) 0).

(** [x * self.max_adc_value] and [float(self.max_adc_value)] fail on
    the [None] left by [__init__]. *)
Definition the_max_adc_value (s : PicoScopeBase) : result num :=
  match max_adc_value s with
  | Some v => Ok (Int v)
  | None => Raise TypeError
  end.

Definition mv_to_adc (s : PicoScopeBase) (mv : num) (channel_range : Z)
  : result Z :=
  rbind (list_getitem (RANGE_LIST K) channel_range) (fun channel_range_mv =>
  rbind (truediv mv (Int channel_range_mv)) (fun q =>
  rbind (the_max_adc_value s) (fun m =>
  rbind (mul (Float q) m) (fun p =>
  int p)))).

Definition adc_to_mv (s : PicoScopeBase) (adc : num) (channel_range : Z)
  : result float :=
  rbind (list_getitem (RANGE_LIST K) channel_range) (fun r =>
  rbind (to_float (Int r)) (fun channel_range_mv =>
  rbind (to_float adc) (fun a =>
  rbind (the_max_adc_value s) (fun m =>
  rbind (to_float m) (fun m =>
  rbind (truediv (Float a) (Float m)) (fun q =>
  Ok (fmul q channel_range_mv))))))).

(** [[self.adc_to_mv(sample, self.range[channel]) for sample in buffer]] *)
Definition buffer_adc_to_mv (buffer : loc) (channel : Z) : M loc :=
  o <- deref buffer ;;
  vs <- map_m (fun sample =>
                 s <- get_self ;;
                 r <- lift (dict_getitem (range s) channel) ;;
                 v <- lift (adc_to_mv s sample r) ;;
                 ret (Float v))
              (items_of o) ;;
  alloc (PyList vs).

Definition buffer_adc_to_mv_multiple_channels (channels_buffer : loc)
  : M loc :=
  channels <- keys_of channels_buffer ;;
  for_each channels (fun channel =>
    b <- getitem channels_buffer channel ;;
    v <- buffer_adc_to_mv b channel ;;
    setitem channels_buffer channel v) ;;;
  ret channels_buffer.



Definition _set_channel_on (channel rng coupling : Z) (offset : num)
  (bandwidth : Z) : M unit :=
  set_range channel rng ;;;
  s <- get_self ;;
  offset <- lift (c_double offset) ;;
  r <- native (String.append _unit_prefix_n "SetChannelOn")
         [AHandle (handle s); AInt channel; AInt coupling; AInt rng;
          ADouble (Float offset); AInt bandwidth] ;;
  _error_handler (fst r).

Definition _set_channel_off (channel : Z) : M unit :=
  s <- get_self ;;
  r <- native (String.append _unit_prefix_n "SetChannelOff")
         [AHandle (handle s); AInt channel] ;;
  _error_handler (fst r).

Definition _set_channel (channel rng : Z) (enabled : bool) (coupling : Z)
  (offset : num) : M unit :=
  set_range channel rng ;;;
  s <- get_self ;;
  offset <- lift (c_float offset) ;;
  r <- native "ps5000aSetChannel"
         [AHandle (handle s); AInt channel; ABool enabled; AInt coupling;
          AInt rng; AFloat (Float offset)] ;;
  _error_handler (fst r).

Definition set_simple_trigger (channel : Z) (threshold_mv : num)
  (enable : bool) (direction delay auto_trigger_ms : Z) : M unit :=
  s <- get_self ;;
  rng <- lift (dict_getitem (range s) channel) ;;
  threshold_adc <- lift (mv_to_adc s threshold_mv rng) ;;
  r <- native (String.append _unit_prefix_n "SetSimpleTrigger")
         [AHandle (handle s); ABool enable; AInt channel;
          AInt threshold_adc; AInt direction; AInt delay;
          AInt auto_trigger_ms] ;;
  _error_handler (fst r).

Definition _set_data_buffer_ps5000a (channel samples segment ratio_mode : Z)
  : M loc :=
  buffer <- new_array K c_int16 samples ;;
  s <- get_self ;;
  _call_attr_function "SetDataBuffer"
    [AHandle (handle s); AInt channel; AByRefArray buffer; AInt samples;
     AInt segment; AInt ratio_mode] ;;;
  ret buffer.

(** The [if]/[elif] chain selecting the element type. *)
Definition buffer_ctype (datatype : Z) : result ctype :=
  if datatype =? DATA_TYPE_INT8_T K then Ok c_int8
  else if datatype =? DATA_TYPE_INT16_T K then Ok c_int16
  else if datatype =? DATA_TYPE_INT32_T K then Ok c_int32
  else if datatype =? DATA_TYPE_INT64_T K then Ok c_int64
  else if datatype =? DATA_TYPE_UINT32_T K then Ok c_uint32
  else Raise (PicoSDKException "Invalid datatype selected for buffer").

Definition _set_data_buffer_ps6000a
  (channel samples segment datatype ratio_mode action : Z) : M loc :=
  t <- lift (buffer_ctype datatype) ;;
  buffer <- new_array K t samples ;;
  s <- get_self ;;
  _call_attr_function "SetDataBuffer"
    [AHandle (handle s); AInt channel; AByRefArray buffer; AInt samples;
     AInt datatype; AInt segment; AInt ratio_mode; AInt action] ;;;
  ret buffer.

(** The first two statements of [run_block_capture]:
    [pre_samples = int((samples * pre_trig_percent) / 100)] and
    [post_samples = int(samples - pre_samples)]. *)
Definition pre_post_samples (samples pre_trig_percent : Z)
  : result (Z * Z) :=
  rbind (mul (Int samples) (Int pre_trig_percent)) (fun p =>
  rbind (truediv p (Int 100)) (fun q =>
  rbind (int (Float q)) (fun pre_samples =>
  rbind (int (Int (samples - pre_samples))) (fun post_samples =>
  Ok (pre_samples, post_samples))))).

Definition run_block_capture (timebase samples pre_trig_percent segment : Z)
  : M Z :=
  split <- lift (pre_post_samples samples pre_trig_percent) ;;
  s <- get_self ;;
  r <- _call_attr_function "RunBlock"
         [AHandle (handle s); AInt (fst split); AInt (snd split);
          AInt timebase; AOut c_int32; AInt segment; ANone; ANone] ;;
  ret (nth 0 (snd r) 0).

End PicoScopeBase.

(** ** [class ps6000a(PicoScopeBase)] *)

Module ps6000a.
Section ps6000a.
Variable K : constants.
Variable dll : driver.

Definition _unit_prefix_n : string := "ps6000a".

Definition open_unit (serial_number : option string) (res : Z) : M unit :=
  _open_unit K dll _unit_prefix_n serial_number res ;;;
  limits <- _get_adc_limits K dll _unit_prefix_n ;;
  set_min_adc_value (fst limits) ;;;
  set_max_adc_value (snd limits).

Definition set_channel (channel rng : Z) (enabled : bool) (coupling : Z)
  (offset : num) (bandwidth : Z) : M unit :=
  if enabled
  then _set_channel_on K dll _unit_prefix_n channel rng coupling offset
         bandwidth
  else _set_channel_off K dll _unit_prefix_n channel.

Definition set_data_buffer
  (channel samples segment datatype ratio_mode action : Z) : M loc :=
  _set_data_buffer_ps6000a K dll _unit_prefix_n channel samples segment
    datatype ratio_mode action.

Definition set_data_buffer_for_enabled_channels
  (samples segment datatype ratio_mode action : Z) : M loc :=
  channels_buffer <- alloc (PyDict []) ;;
  s <- get_self ;;
  for_each (dict_keys (range s)) (fun channel =>
    b <- _set_data_buffer_ps6000a K dll _unit_prefix_n channel samples
           segment datatype ratio_mode action ;;
    setitem channels_buffer channel b) ;;;
  ret channels_buffer.
End ps6000a.
End ps6000a.

(** ** [class ps5000a(PicoScopeBase)] *)

Module ps5000a.
Section ps5000a.
Variable K : constants.
Variable dll : driver.

Definition _unit_prefix_n : string := "ps5000a".

Definition open_unit (serial_number : option string) (res : Z) : M unit :=
  status <- _open_unit K dll _unit_prefix_n serial_number res ;;
  v <- _get_maximum_adc_value K dll _unit_prefix_n ;;
  set_max_adc_value v ;;;
  ret status.

Definition set_channel (channel rng : Z) (enabled : bool) (coupling : Z)
  (offset : num) : M unit :=
  _set_channel K dll _unit_prefix_n channel rng enabled coupling offset.

Definition set_data_buffer (channel samples segment ratio_mode : Z)
  : M loc :=
  _set_data_buffer_ps5000a K dll _unit_prefix_n channel samples segment
    ratio_mode.

Definition set_data_buffer_for_enabled_channels
  (samples segment ratio_mode : Z) : M loc :=
  channels_buffer <- alloc (PyDict []) ;;
  s <- get_self ;;
  for_each (dict_keys (range s)) (fun channel =>
    b <- _set_data_buffer_ps5000a K dll _unit_prefix_n channel samples
           segment ratio_mode ;;
    setitem channels_buffer channel b) ;;;
  ret channels_buffer.
End ps5000a.
End ps5000a.

End Engine.

(* ===================================================================== *)
(** * A simulated unit *)
(* ===================================================================== *)

(** Concrete tables and drivers on which the engine can be run.  The
    status codes are those of the vendor's status header; the range table
    lists the millivolt spans of the first eleven range settings.  The
    platform is a 64-bit one (a C [long] of 64 bits, objects of up to
    [2^63 - 1] bytes) whose allocator grants blocks of up to 4 GiB. *)
Module Bench.
Import Py Engine.
Local Open Scope string_scope.
Local Open Scope list_scope.
Local Open Scope Z_scope.

Definition K : constants :=
  {| ERROR_STRING :=
       list_to_map [(0, "PICO_OK"); (3, "PICO_NOT_FOUND");
                    (12, "PICO_INVALID_HANDLE");
                    (13, "PICO_INVALID_PARAMETER");
                    (282, "PICO_POWER_SUPPLY_NOT_CONNECTED")];
     RANGE_LIST := [10; 20; 50; 100; 200; 500; 1000; 2000; 5000; 10000; 20000];
     POWER_SOURCE_SUPPLY_NOT_CONNECTED := 282;
     DATA_TYPE_INT8_T := 0;
     DATA_TYPE_INT16_T := 1;
     DATA_TYPE_INT32_T := 2;
     DATA_TYPE_UINT32_T := 3;
     DATA_TYPE_INT64_T := 4;
     C_LONG_BITS := 64;
     PY_SSIZE_T_MAX := 2 ^ 63 - 1;
     allocates := fun _ bytes => bytes <=? 2 ^ 32 |}.

(** A driver answering every call with the same status and outputs. *)
Definition constant_driver (status : Z) (outs : list Z) : driver :=
  fun _ _ => {| reply_status := status; reply_outputs := outs |}.

(** A healthy unit: every call succeeds; the handle is 16384, the ADC
    ceiling 32512 and, where asked, the ADC floor -32512. *)
Definition healthy : driver :=
  fun _ c =>
    match c with
    | Call name _ =>
        if String.eqb name "ps6000aOpenUnit" || String.eqb name "ps5000aOpenUnit"
        then {| reply_status := 0; reply_outputs := [16384] |}
        else if String.eqb name "ps6000aGetAdcLimits"
        then {| reply_status := 0; reply_outputs := [-32512; 32512] |}
        else if String.eqb name "ps5000aMaximumValue"
        then {| reply_status := 0; reply_outputs := [32512] |}
        else {| reply_status := 0; reply_outputs := [] |}
    end.

(** An opened session with channel 0 at range 6 (a span of 1000 mV). *)
Definition opened : PicoScopeBase :=
  {| handle := 16384; range := [(0, 6)]; resolution := Some 1;
     max_adc_value := Some 32512; min_adc_value := Some (-32512) |}.

End Bench.

(* ===================================================================== *)
(** * Properties *)
(* ===================================================================== *)

Import Binary64 Py Engine.
Local Open Scope string_scope.
Local Open Scope list_scope.
Local Open Scope Z_scope.

(** Unfolding the monad. *)
Ltac unfold_m :=
  unfold bind, ret, raise, lift, get_self, set_self, print, alloc, deref,
    store in *.

(** ** The status handler *)

(** A status the handler lets through: present in the table, and either
    zero or the power-supply warning. *)
Definition accepted (K : constants) (status : Z) : Prop :=
  is_Some (ERROR_STRING K !! status) /\
  (status = 0 \/ status = POWER_SOURCE_SUPPLY_NOT_CONNECTED K).

(** The world after [close_unit]: one more native call, nothing else. *)
Definition closed (pfx : string) (w : world) : world :=
  {| self := self w; heap := heap w;
     calls := calls w ++ [Call (String.append pfx "CloseUnit")
                            [AHandle (handle (self w))]];
     stdout := stdout w |}.

Definition warned (w : world) : world :=
  {| self := self w; heap := heap w; calls := calls w;
     stdout := stdout w ++ ["WARNING: Power supply not connected"] |}.

Lemma close_unit_spec K dll pfx w :
  close_unit K dll pfx w = (Ok tt, closed pfx w).
Proof.
  unfold close_unit, native, _get_attr_function, closed. unfold_m.
  destruct w as [[h r res mx mn] hp cs out]; reflexivity.
Qed.

Lemma error_handler_unknown K dll pfx status w :
  ERROR_STRING K !! status = None ->
  _error_handler K dll pfx status w = (Raise (KeyError status), w).
Proof.
  intros H. unfold _error_handler. unfold_m. rewrite H. reflexivity.
Qed.

Lemma error_handler_known K dll pfx status msg w :
  ERROR_STRING K !! status = Some msg ->
  _error_handler K dll pfx status w =
    if status =? 0 then (Ok tt, w)
    else if status =? POWER_SOURCE_SUPPLY_NOT_CONNECTED K
         then (Ok tt, warned w)
         else (Raise (PicoSDKException msg), closed pfx w).
Proof.
  intros H. unfold _error_handler.
  unfold bind at 1. unfold lift. rewrite H.
  destruct (status =? 0); simpl; [reflexivity|].
  destruct (status =? _); simpl.
  - reflexivity.
  - unfold bind. rewrite close_unit_spec. reflexivity.
Qed.

(** The status handler as the specification describes it, over every
    status code: zero is a success without effect, the warning code is
    reported and let through, anything else closes the session and raises
    the error with its message. *)
Definition handles_every_status (K : constants) (dll : driver) (pfx : string)
  : Prop :=
  forall status w,
    (status = 0 -> _error_handler K dll pfx status w = (Ok tt, w)) /\
    (status <> 0 -> status = POWER_SOURCE_SUPPLY_NOT_CONNECTED K ->
     _error_handler K dll pfx status w = (Ok tt, warned w)) /\
    (status <> 0 -> status <> POWER_SOURCE_SUPPLY_NOT_CONNECTED K ->
     exists msg, _error_handler K dll pfx status w
                 = (Raise (PicoSDKException msg), closed pfx w)).

(** No table covers every status: a [gmap] is finite. *)
Lemma unknown_status_exists (K : constants) :
  exists status, status <> 0 /\
                 status <> POWER_SOURCE_SUPPLY_NOT_CONNECTED K /\
                 ERROR_STRING K !! status = None.
Proof.
  set (X := {[ 0; POWER_SOURCE_SUPPLY_NOT_CONNECTED K ]} ∪ dom (ERROR_STRING K)
            : gset Z).
  pose proof (is_fresh X) as Hf. revert Hf.
  generalize (fresh X). intros status Hf. exists status.
  unfold X in Hf. repeat split.
  - intros ->. set_solver.
  - intros E. apply Hf. rewrite E. set_solver.
  - apply not_elem_of_dom. set_solver.
Qed.

Lemma handles_every_status_fails K dll pfx :
  ~ handles_every_status K dll pfx.
Proof.
  intros H. destruct (unknown_status_exists K) as (status & H0 & Hw & Hn).
  destruct (H status new_world) as (_ & _ & H3).
  destruct (H3 H0 Hw) as [msg E].
  rewrite (error_handler_unknown _ _ _ _ _ Hn) in E. discriminate.
Qed.

(** C1, as stated, fails: status 5 is not in the table of the simulated
    unit, and the handler neither closes the session nor raises the
    engine's error for it. *)
Lemma status_handler_counterexample :
  ~ handles_every_status Bench.K Bench.healthy "ps6000a".
Proof.
  intros H. destruct (H 5 new_world) as (_ & _ & H3).
  destruct H3 as [msg E]; [lia | discriminate |].
  vm_compute in E. discriminate.
Qed.

(** C1 (amended): for every native status code that is present in the
    code-to-message table, the status handler behaves as follows.  Code 0
    is a success and leaves the world as it was.  The power-supply warning
    code prints the warning and returns normally; no native call is made,
    so the session stays open.  Every other non-zero code issues
    [CloseUnit] on the session handle and raises [PicoSDKException] with
    the message the table gives for the code. *)
Theorem status_handler_outcomes K dll pfx status msg w :
  ERROR_STRING K !! status = Some msg ->
  (status = 0 -> _error_handler K dll pfx status w = (Ok tt, w)) /\
  (status <> 0 -> status = POWER_SOURCE_SUPPLY_NOT_CONNECTED K ->
   _error_handler K dll pfx status w = (Ok tt, warned w)) /\
  (status <> 0 -> status <> POWER_SOURCE_SUPPLY_NOT_CONNECTED K ->
   _error_handler K dll pfx status w
   = (Raise (PicoSDKException msg), closed pfx w)).
Proof.
  intros H. rewrite (error_handler_known _ _ _ _ _ _ H).
  repeat split.
  - intros ->. reflexivity.
  - intros H0 H1. apply Z.eqb_neq in H0. rewrite H0.
    apply Z.eqb_eq in H1. rewrite H1. reflexivity.
  - intros H0 H1. apply Z.eqb_neq in H0, H1. rewrite H0, H1. reflexivity.
Qed.

Lemma status_handler_outcomes_witness :
  ERROR_STRING Bench.K !! 12 = Some "PICO_INVALID_HANDLE" /\
  _error_handler Bench.K Bench.healthy "ps6000a" 12 new_world
  = (Raise (PicoSDKException "PICO_INVALID_HANDLE"),
     closed "ps6000a" new_world).
Proof.
  split; [reflexivity|].
  apply (status_handler_outcomes Bench.K Bench.healthy "ps6000a" 12
           "PICO_INVALID_HANDLE" new_world); [reflexivity | lia | discriminate].
Defined.

(** The specification's requirement on codes the table does not know:
    the handler still produces one of its outcomes (a normal return or
    the engine's own exception). *)
Definition tolerates_unknown_status (K : constants) (dll : driver)
  (pfx : string) : Prop :=
  forall status w,
    ERROR_STRING K !! status = None ->
    exists w',
      _error_handler K dll pfx status w = (Ok tt, w') \/
      exists msg, _error_handler K dll pfx status w
                  = (Raise (PicoSDKException msg), w').

(** No table makes the handler tolerant: some status is always missing,
    and the handler stops on it. *)
Lemma tolerates_unknown_status_fails K dll pfx :
  ~ tolerates_unknown_status K dll pfx.
Proof.
  intros H. destruct (unknown_status_exists K) as (status & _ & _ & Hn).
  destruct (H status new_world Hn) as [w' [E | [msg E]]];
    rewrite (error_handler_unknown _ _ _ _ _ Hn) in E; discriminate.
Qed.

(** C6, as stated, fails: on status 5, absent from the table of the
    simulated unit, the handler stops with the lookup's [KeyError]. *)
Lemma unknown_status_counterexample :
  ~ tolerates_unknown_status Bench.K Bench.healthy "ps6000a".
Proof.
  intros H. destruct (H 5 new_world eq_refl) as [w' [E | [msg E]]];
    vm_compute in E; discriminate.
Qed.

(** C6 (amended): for every native status code absent from the
    code-to-message table, the status handler fails on the table lookup
    itself: it raises [KeyError] carrying the code, before the code is
    classified.  Nothing is printed, the session is not closed and no
    [PicoSDKException] is produced. *)
Theorem unknown_status_raises_key_error K dll pfx status w :
  ERROR_STRING K !! status = None ->
  _error_handler K dll pfx status w = (Raise (KeyError status), w).
Proof.
  intros H. apply error_handler_unknown, H.
Qed.

Lemma unknown_status_raises_key_error_witness :
  ERROR_STRING Bench.K !! 5 = None /\
  _error_handler Bench.K Bench.healthy "ps5000a" 5 new_world
  = (Raise (KeyError 5), new_world).
Proof.
  split; [reflexivity|].
  apply (unknown_status_raises_key_error Bench.K Bench.healthy "ps5000a" 5
           new_world); reflexivity.
Defined.

(** ** The simple trigger *)

(** The specification's reading of a trigger on an unconfigured channel:
    it is refused with the engine's own error, before any native
    call. *)
Definition refuses_unconfigured_channel (K : constants) (dll : driver)
  (pfx : string) : Prop :=
  forall channel threshold_mv enable direction delay auto_trigger_ms w,
    dict_get (range (self w)) channel = None ->
    exists msg,
      set_simple_trigger K dll pfx channel threshold_mv enable direction
        delay auto_trigger_ms w
      = (Raise (PicoSDKException msg), w).

(** C2, as stated, fails twice over on the simulated unit.  A trigger on
    a channel without a recorded range does stop before any native
    call, but with the [KeyError] of the range-table lookup, not with
    the engine's exception.  And a channel that was never enabled may
    have a recorded range all the same: a legacy [set_channel] with
    [enabled=False] records one, after which the trigger is set and
    [SetSimpleTrigger] reaches the driver. *)
Lemma trigger_on_unconfigured_channel_counterexample :
  ~ refuses_unconfigured_channel Bench.K Bench.healthy "ps5000a" /\
  let run :=
    (ps5000a.open_unit Bench.K Bench.healthy None 1 ;;;
     ps5000a.set_channel Bench.K Bench.healthy 0 6 false 1 (Float (Fin 0)) ;;;
     set_simple_trigger Bench.K Bench.healthy "ps5000a" 0 (Int 500) true 2
       0 3000) new_world in
  fst run = Ok tt /\
  calls (snd run)
  = [Call "ps5000aOpenUnit" [AByRefHandle; ANone; AInt 1];
     Call "ps5000aMaximumValue" [AHandle 16384; AOut c_int16];
     Call "ps5000aSetChannel"
       [AHandle 16384; AInt 0; ABool false; AInt 1; AInt 6;
        AFloat (Float (Fin 0))];
     Call "ps5000aSetSimpleTrigger"
       [AHandle 16384; ABool true; AInt 0; AInt 16256; AInt 2; AInt 0;
        AInt 3000]].
Proof.
  split; [|vm_compute; split; reflexivity].
  intros H.
  destruct (H 1 (Int 500) true 2 0 3000 new_world eq_refl) as [msg E].
  vm_compute in E. discriminate.
Qed.

(** C2 (amended): for every channel for which the range table has no
    entry, [set_simple_trigger] fails before any native call: the lookup
    of the channel's range raises [KeyError] carrying the channel (no
    [PicoSDKException] is produced), and the world, in particular the
    log of native calls, is left as it was. *)
Theorem trigger_on_unconfigured_channel K dll pfx channel threshold_mv enable
  direction delay auto_trigger_ms w :
  dict_get (range (self w)) channel = None ->
  set_simple_trigger K dll pfx channel threshold_mv enable direction delay
    auto_trigger_ms w
  = (Raise (KeyError channel), w).
Proof.
  intros H. unfold set_simple_trigger, dict_getitem. unfold_m.
  rewrite H. reflexivity.
Qed.

Lemma trigger_on_unconfigured_channel_witness :
  dict_get (range (self new_world)) 1 = None /\
  set_simple_trigger Bench.K Bench.healthy "ps6000a" 1 (Int 500) true 2 0 3000
    new_world
  = (Raise (KeyError 1), new_world).
Proof.
  split; [reflexivity|].
  apply (trigger_on_unconfigured_channel Bench.K Bench.healthy "ps6000a" 1
           (Int 500) true 2 0 3000 new_world); reflexivity.
Defined.

(** ** Native calls and what they leave untouched *)

Lemma dict_get_set_eq {V} (d : dict V) k v :
  dict_get (dict_set d k v) k = Some v.
Proof.
  induction d as [|[k' v'] d IH]; simpl.
  - rewrite Z.eqb_refl. reflexivity.
  - destruct (k' =? k) eqn:E; simpl; rewrite E; [reflexivity | exact IH].
Qed.

Lemma dict_get_set_ne {V} (d : dict V) k k' v :
  k <> k' -> dict_get (dict_set d k v) k' = dict_get d k'.
Proof.
  intros Hne. induction d as [|[k0 v0] d IH]; simpl.
  - destruct (k =? k') eqn:E; [apply Z.eqb_eq in E; lia | reflexivity].
  - destruct (k0 =? k) eqn:E; simpl.
    + apply Z.eqb_eq in E. subst k0.
      destruct (k =? k') eqn:E'; [apply Z.eqb_eq in E'; lia | reflexivity].
    + rewrite IH. reflexivity.
Qed.

Lemma dict_keys_set_in {V} (d : dict V) k v :
  In k (dict_keys d) -> dict_keys (dict_set d k v) = dict_keys d.
Proof.
  induction d as [|[k0 v0] d IH]; simpl; [tauto|].
  intros H. destruct (k0 =? k) eqn:E; simpl; [reflexivity|].
  f_equal. apply IH. destruct H as [H|H]; [|exact H].
  subst. rewrite Z.eqb_refl in E. discriminate.
Qed.

Lemma dict_get_in_keys {V} (d : dict V) k :
  In k (dict_keys d) <-> is_Some (dict_get d k).
Proof.
  induction d as [|[k0 v0] d IH]; simpl.
  - split; [tauto | intros [? ?]; discriminate].
  - destruct (k0 =? k) eqn:E.
    + apply Z.eqb_eq in E. split; eauto.
    + apply Z.eqb_neq in E. rewrite <- IH. split; [intros [?|?]|]; tauto.
Qed.

(** The by-reference stores of a call that does not pass the handle
    leave the handle alone. *)
Fixpoint passes_handle_by_ref (args : list carg) : bool :=
  match args with
  | [] => false
  | AByRefHandle :: _ => true
  | _ :: args' => passes_handle_by_ref args'
  end.

Lemma write_outs_handle args : forall outs h,
  passes_handle_by_ref args = false -> fst (write_outs args outs h) = h.
Proof.
  induction args as [|a args IH]; intros outs h H; [reflexivity|].
  destruct a; simpl in *; try (apply IH; exact H); try discriminate.
  destruct outs as [|o outs'].
  - specialize (IH [] h H). destruct (write_outs args [] h). exact IH.
  - specialize (IH outs' h H). destruct (write_outs args outs' h). exact IH.
Qed.

(** The world after a native call. *)
Definition called (dll : driver) (c : native_call) (w : world) : world :=
  match c with
  | Call _ args =>
      {| self := {| handle := fst (write_outs args
                                     (reply_outputs (dll (calls w) c))
                                     (handle (self w)));
                    range := range (self w);
                    resolution := resolution (self w);
                    max_adc_value := max_adc_value (self w);
                    min_adc_value := min_adc_value (self w) |};
         heap := heap w; calls := calls w ++ [c]; stdout := stdout w |}
  end.

Lemma native_spec K dll name args w :
  forallb (marshals K) args = true ->
  native K dll name args w
  = (Ok (ctype_value c_int32 (reply_status (dll (calls w) (Call name args))),
         snd (write_outs args (reply_outputs (dll (calls w) (Call name args)))
                (handle (self w)))),
     called dll (Call name args) w).
Proof.
  intros H. unfold native, called. rewrite H.
  destruct (write_outs _ _ _). reflexivity.
Qed.

(** A call with an argument ctypes cannot convert is not made. *)
Lemma native_refused K dll name args w :
  forallb (marshals K) args = false ->
  native K dll name args w = (Raise ArgumentError, w).
Proof. intros H. unfold native. rewrite H. reflexivity. Qed.

(** Whatever the status, the handler leaves the session object and the
    heap alone and only ever appends to the call log. *)
Lemma error_handler_frame K dll pfx status w :
  let w' := snd (_error_handler K dll pfx status w) in
  self w' = self w /\ heap w' = heap w /\
  exists rest, calls w' = calls w ++ rest.
Proof.
  destruct (ERROR_STRING K !! status) as [msg|] eqn:E.
  - rewrite (error_handler_known _ _ _ _ _ _ E).
    destruct (status =? 0); [|destruct (status =? _)]; simpl;
      repeat split; try (exists []; rewrite app_nil_r; reflexivity); eauto.
  - rewrite (error_handler_unknown _ _ _ _ _ E). simpl.
    repeat split. exists []. rewrite app_nil_r. reflexivity.
Qed.

Lemma error_handler_accepted K dll pfx status w :
  accepted K status ->
  exists w', _error_handler K dll pfx status w = (Ok tt, w') /\
             self w' = self w /\ heap w' = heap w /\ calls w' = calls w.
Proof.
  intros [[msg E] Hs]. rewrite (error_handler_known _ _ _ _ _ _ E).
  destruct (status =? 0) eqn:E0; [exists w; repeat split|].
  destruct (status =? POWER_SOURCE_SUPPLY_NOT_CONNECTED K) eqn:E1;
    [exists (warned w); repeat split|].
  apply Z.eqb_neq in E0, E1. lia.
Qed.

(** A normal return of the handler means the status was let through. *)
Lemma error_handler_ok K dll pfx status w u w' :
  _error_handler K dll pfx status w = (Ok u, w') ->
  self w' = self w /\ heap w' = heap w /\ calls w' = calls w.
Proof.
  destruct (ERROR_STRING K !! status) as [msg|] eqn:E.
  - rewrite (error_handler_known _ _ _ _ _ _ E).
    destruct (status =? 0); [|destruct (status =? _)]; intros H;
      inversion H; subst; auto.
  - rewrite (error_handler_unknown _ _ _ _ _ E). discriminate.
Qed.

Lemma call_attr_ok K dll pfx name args w r w' :
  let c := Call (String.append pfx name) args in
  _call_attr_function K dll pfx name args w = (Ok r, w') ->
  r = (ctype_value c_int32 (reply_status (dll (calls w) c)),
       snd (write_outs args (reply_outputs (dll (calls w) c))
              (handle (self w)))) /\
  self w' = self (called dll c w) /\ heap w' = heap w /\
  calls w' = calls w ++ [c].
Proof.
  intros c. unfold _call_attr_function, _get_attr_function.
  unfold bind at 1.
  destruct (forallb (marshals K) args) eqn:Hm;
    [|rewrite native_refused by exact Hm; discriminate].
  rewrite native_spec by exact Hm. fold c.
  unfold bind, ret.
  destruct (_error_handler _ _ _ _ _) as [[u|e] w1] eqn:E; [|discriminate].
  intros H. inversion H; subst. clear H.
  apply error_handler_ok in E. destruct E as (Hs & Hh & Hc).
  rewrite Hs, Hh, Hc. repeat split.
Qed.

(** A call that returned was made. *)
Lemma call_attr_ok_marshals K dll pfx name args w r w' :
  _call_attr_function K dll pfx name args w = (Ok r, w') ->
  forallb (marshals K) args = true.
Proof.
  unfold _call_attr_function. unfold bind at 1.
  destruct (forallb (marshals K) args) eqn:Hm; [reflexivity|].
  rewrite native_refused by exact Hm. discriminate.
Qed.

Lemma call_attr_refused K dll pfx name args w :
  forallb (marshals K) args = false ->
  _call_attr_function K dll pfx name args w = (Raise ArgumentError, w).
Proof.
  intros Hm. unfold _call_attr_function. unfold bind at 1.
  rewrite native_refused by exact Hm. reflexivity.
Qed.

Lemma call_attr_accepted K dll pfx name args w :
  let c := Call (String.append pfx name) args in
  forallb (marshals K) args = true ->
  accepted K (ctype_value c_int32 (reply_status (dll (calls w) c))) ->
  exists r w', _call_attr_function K dll pfx name args w = (Ok r, w') /\
               self w' = self (called dll c w) /\ heap w' = heap w /\
               calls w' = calls w ++ [c].
Proof.
  intros c Hm Ha. unfold _call_attr_function, _get_attr_function.
  unfold bind at 1. rewrite native_spec by exact Hm. fold c.
  destruct (error_handler_accepted K dll pfx _ (called dll c w) Ha)
    as (w1 & E & Hs & Hh & Hc).
  unfold bind, ret. cbn [fst]. rewrite E.
  eexists _, w1. split; [reflexivity|]. rewrite Hs, Hh, Hc. repeat split.
Qed.

Lemma call_attr_calls K dll pfx name args w :
  forallb (marshals K) args = true ->
  exists rest,
    calls (snd (_call_attr_function K dll pfx name args w))
    = calls w ++ Call (String.append pfx name) args :: rest.
Proof.
  intros Hm. unfold _call_attr_function, _get_attr_function.
  unfold bind at 1. rewrite native_spec by exact Hm. cbn [fst].
  unfold bind at 1.
  match goal with
  | |- context [_error_handler K dll pfx ?st ?w0] =>
      destruct (error_handler_frame K dll pfx st w0) as (_ & _ & rest & Hc);
      destruct (_error_handler K dll pfx st w0) as [[u|e] w1]
  end; cbn [snd] in Hc; unfold ret; cbn [snd];
    rewrite Hc; cbn [called calls]; rewrite <- app_assoc;
    exists rest; reflexivity.
Qed.

(** ** Enabling a channel *)

(** The session object with one range recorded. *)
Definition with_range (s : PicoScopeBase) (channel rng : Z) : PicoScopeBase :=
  {| handle := handle s; range := dict_set (range s) channel rng;
     resolution := resolution s; max_adc_value := max_adc_value s;
     min_adc_value := min_adc_value s |}.

(** The world once [self.range[channel] = range] has run. *)
Definition recorded (channel rng : Z) (w : world) : world :=
  {| self := with_range (self w) channel rng; heap := heap w;
     calls := calls w; stdout := stdout w |}.

(** The argument lists of the two enabling calls, given the session
    handle and the converted offset. *)
Definition set_channel_on_args (h channel coupling rng : Z) (offset : float)
  (bandwidth : Z) : list carg :=
  [AHandle h; AInt channel; AInt coupling; AInt rng;
   ADouble (Float offset); AInt bandwidth].

Definition set_channel_args (h channel : Z) (enabled : bool)
  (coupling rng : Z) (offset : float) : list carg :=
  [AHandle h; AInt channel; ABool enabled; AInt coupling; AInt rng;
   AFloat (Float offset)].

(** The status the driver answers to call [c] made in world [w]. *)
Definition status_of (dll : driver) (c : native_call) (w : world) : Z :=
  ctype_value c_int32 (reply_status (dll (calls w) c)).

(** Both enabling functions have the same shape: record the range,
    convert the offset, make the call, hand the status over. *)
Lemma enable_pipeline K dll pfx name (conv : result float)
  (args : Z -> float -> list carg) channel rng w :
  (set_range channel rng ;;;
   s <- get_self ;;
   offset <- lift conv ;;
   r <- native K dll name (args (handle s) offset) ;;
   _error_handler K dll pfx (fst r)) w
  = match conv with
    | Raise e => (Raise e, recorded channel rng w)
    | Ok d =>
        let c := Call name (args (handle (self w)) d) in
        if forallb (marshals K) (args (handle (self w)) d)
        then _error_handler K dll pfx (status_of dll c w)
               (called dll c (recorded channel rng w))
        else (Raise ArgumentError, recorded channel rng w)
    end.
Proof.
  unfold bind at 1. unfold set_range at 1. unfold bind at 1.
  unfold get_self at 1, set_self at 1. cbn iota beta.
  fold (with_range (self w) channel rng). fold (recorded channel rng w).
  unfold bind at 1. unfold get_self at 1. cbn iota beta.
  unfold bind at 1. unfold lift at 1.
  destruct conv as [d|e]; [|reflexivity].
  cbn [recorded self with_range handle]. fold (recorded channel rng w).
  cbv zeta. unfold bind at 1.
  destruct (forallb (marshals K) (args (handle (self w)) d)) eqn:Hm.
  - rewrite native_spec by exact Hm. reflexivity.
  - rewrite native_refused by exact Hm. reflexivity.
Qed.

Lemma set_channel_on_outcome K dll pfx channel rng coupling offset
  bandwidth w :
  _set_channel_on K dll pfx channel rng coupling offset bandwidth w
  = match c_double offset with
    | Raise e => (Raise e, recorded channel rng w)
    | Ok d =>
        let args := set_channel_on_args (handle (self w)) channel coupling
                      rng d bandwidth in
        let c := Call (String.append pfx "SetChannelOn") args in
        if forallb (marshals K) args
        then _error_handler K dll pfx (status_of dll c w)
               (called dll c (recorded channel rng w))
        else (Raise ArgumentError, recorded channel rng w)
    end.
Proof.
  apply (enable_pipeline K dll pfx (String.append pfx "SetChannelOn")
           (c_double offset)
           (fun h d => set_channel_on_args h channel coupling rng d
                         bandwidth)).
Qed.

Lemma set_channel_outcome K dll pfx channel rng enabled coupling offset w :
  _set_channel K dll pfx channel rng enabled coupling offset w
  = match c_float offset with
    | Raise e => (Raise e, recorded channel rng w)
    | Ok d =>
        let args := set_channel_args (handle (self w)) channel enabled
                      coupling rng d in
        let c := Call "ps5000aSetChannel" args in
        if forallb (marshals K) args
        then _error_handler K dll pfx (status_of dll c w)
               (called dll c (recorded channel rng w))
        else (Raise ArgumentError, recorded channel rng w)
    end.
Proof.
  apply (enable_pipeline K dll pfx "ps5000aSetChannel" (c_float offset)
           (fun h d => set_channel_args h channel enabled coupling rng d)).
Qed.

Lemma called_self dll name args w :
  passes_handle_by_ref args = false ->
  self (called dll (Call name args) w) = self w.
Proof.
  intros H. unfold called. cbn [self].
  rewrite write_outs_handle by exact H. destruct (self w). reflexivity.
Qed.

(** Whatever an enabling call comes to, the session object afterwards is
    the one with the range recorded, and the heap is untouched. *)
Lemma enable_pipeline_frame K dll pfx name (conv : result float)
  (args : Z -> float -> list carg) channel rng w :
  (forall h d, passes_handle_by_ref (args h d) = false) ->
  let r := (set_range channel rng ;;;
            s <- get_self ;;
            offset <- lift conv ;;
            r <- native K dll name (args (handle s) offset) ;;
            _error_handler K dll pfx (fst r)) w in
  self (snd r) = with_range (self w) channel rng /\ heap (snd r) = heap w.
Proof.
  intros Hargs r. unfold r. rewrite enable_pipeline.
  destruct conv as [d|e]; [|split; reflexivity].
  cbv zeta. destruct (forallb _ _); [|split; reflexivity].
  match goal with
  | |- context [_error_handler K dll pfx ?st ?w0] =>
      destruct (error_handler_frame K dll pfx st w0) as (Hs & Hh & _)
  end.
  cbv zeta in Hs, Hh. rewrite Hs, Hh, called_self by apply Hargs.
  split; reflexivity.
Qed.

(** C9: on either device generation, a [set_channel] call with
    [enabled=True] writes the requested range into the range table
    before anything else.  When the call cannot be made at all (the
    offset does not convert to a C floating-point number, or ctypes
    cannot convert an integer argument) the exception leaves the world
    with the entry written and the log of native calls as it was: the
    write has happened although no native call has.  Otherwise the
    native call is issued from that updated state and its status goes to
    the status handler.  Whatever the outcome, fatal statuses included,
    the entry is still there when the call ends: nothing rolls it
    back. *)
Theorem enable_records_range_before_call K dll channel rng coupling offset
  bandwidth w :
  let w1 := recorded channel rng w in
  let args6 := fun d => set_channel_on_args (handle (self w)) channel
                          coupling rng d bandwidth in
  let args5 := fun d => set_channel_args (handle (self w)) channel true
                          coupling rng d in
  let r6 := ps6000a.set_channel K dll channel rng true coupling offset
              bandwidth w in
  let r5 := ps5000a.set_channel K dll channel rng true coupling offset w in
  (w1 = snd (set_range channel rng w) /\
   dict_get (range (self w1)) channel = Some rng /\ calls w1 = calls w) /\
  ((forall e, c_double offset = Raise e -> r6 = (Raise e, w1)) /\
   (forall d, c_double offset = Ok d ->
      forallb (marshals K) (args6 d) = false ->
      r6 = (Raise ArgumentError, w1)) /\
   (forall e, c_float offset = Raise e -> r5 = (Raise e, w1)) /\
   (forall d, c_float offset = Ok d ->
      forallb (marshals K) (args5 d) = false ->
      r5 = (Raise ArgumentError, w1))) /\
  ((forall d, c_double offset = Ok d ->
      forallb (marshals K) (args6 d) = true ->
      let c := Call "ps6000aSetChannelOn" (args6 d) in
      r6 = _error_handler K dll "ps6000a" (status_of dll c w)
             (called dll c w1) /\
      exists rest, calls (snd r6) = calls w ++ c :: rest) /\
   (forall d, c_float offset = Ok d ->
      forallb (marshals K) (args5 d) = true ->
      let c := Call "ps5000aSetChannel" (args5 d) in
      r5 = _error_handler K dll "ps5000a" (status_of dll c w)
             (called dll c w1) /\
      exists rest, calls (snd r5) = calls w ++ c :: rest)) /\
  (dict_get (range (self (snd r6))) channel = Some rng /\
   dict_get (range (self (snd r5))) channel = Some rng).
Proof.
  intros w1 args6 args5 r6 r5.
  assert (E6 : r6 = _set_channel_on K dll "ps6000a" channel rng coupling
                      offset bandwidth w) by reflexivity.
  assert (E5 : r5 = _set_channel K dll "ps5000a" channel rng true coupling
                      offset w) by reflexivity.
  rewrite set_channel_on_outcome in E6. rewrite set_channel_outcome in E5.
  cbv zeta in E6, E5. fold w1 in E6, E5. subst args6 args5. cbn beta.
  assert (H1 : dict_get (range (self w1)) channel = Some rng)
    by apply dict_get_set_eq.
  assert (Hlog : forall pfx (c : native_call) st,
             exists rest,
               calls (snd (_error_handler K dll pfx st (called dll c w1)))
               = calls w ++ c :: rest).
  { intros pfx c st.
    destruct (error_handler_frame K dll pfx st (called dll c w1))
      as (_ & _ & rest & Hc).
    exists rest. cbv zeta in Hc. rewrite Hc. destruct c.
    cbn [called calls w1 recorded]. rewrite <- app_assoc. reflexivity. }
  split; [repeat split; assumption|].
  split; [|split].
  - repeat split.
    + intros e H. rewrite E6, H. reflexivity.
    + intros d H Hm. rewrite E6, H, Hm. reflexivity.
    + intros e H. rewrite E5, H. reflexivity.
    + intros d H Hm. rewrite E5, H, Hm. reflexivity.
  - split.
    + intros d H Hm c.
      assert (E : r6 = _error_handler K dll "ps6000a" (status_of dll c w)
                          (called dll c w1)).
      { rewrite E6, H, Hm. reflexivity. }
      split; [exact E|]. rewrite E. apply Hlog.
    + intros d H Hm c.
      assert (E : r5 = _error_handler K dll "ps5000a" (status_of dll c w)
                          (called dll c w1)).
      { rewrite E5, H, Hm. reflexivity. }
      split; [exact E|]. rewrite E. apply Hlog.
  - split.
    + destruct (enable_pipeline_frame K dll "ps6000a" "ps6000aSetChannelOn"
                  (c_double offset)
                  (fun h d => set_channel_on_args h channel coupling rng d
                                bandwidth) channel rng w (fun _ _ => eq_refl))
        as [Hs _].
      change (self (snd r6) = with_range (self w) channel rng) in Hs.
      rewrite Hs. exact H1.
    + destruct (enable_pipeline_frame K dll "ps5000a" "ps5000aSetChannel"
                  (c_float offset)
                  (fun h d => set_channel_args h channel true coupling rng d)
                  channel rng w (fun _ _ => eq_refl)) as [Hs _].
      change (self (snd r5) = with_range (self w) channel rng) in Hs.
      rewrite Hs. exact H1.
Qed.

(** A run of the above: the driver refuses the call with
    PICO_INVALID_PARAMETER; the session is closed, the error raised, and
    the range table keeps the entry. *)
Example enable_refused_keeps_range :
  let r := ps6000a.set_channel Bench.K (Bench.constant_driver 13 []) 0 6 true
             1 (Float (Fin 0)) 0 new_world in
  fst r = Raise (PicoSDKException "PICO_INVALID_PARAMETER") /\
  range (self (snd r)) = [(0, 6)] /\
  calls (snd r) = [Call "ps6000aSetChannelOn"
                     [AHandle 0; AInt 0; AInt 1; AInt 6;
                      ADouble (Float (Fin 0)); AInt 0];
                   Call "ps6000aCloseUnit" [AHandle 0]].
Proof. vm_compute. repeat split. Qed.

(** Two runs in which no call can be made: an offset of [10**400] does
    not convert to a C double, and a channel number of [2**64] is more
    than ctypes passes.  Each time the exception comes after the write:
    the table has the entry, the log is empty. *)
Example enable_unconvertible_keeps_range :
  let r := ps6000a.set_channel Bench.K Bench.healthy 0 6 true 1
             (Int (10 ^ 400)) 0 new_world in
  let r' := ps5000a.set_channel Bench.K Bench.healthy (2 ^ 64) 6 true 1
              (Float (Fin 0)) new_world in
  (fst r = Raise OverflowError /\ range (self (snd r)) = [(0, 6)] /\
   calls (snd r) = []) /\
  (fst r' = Raise ArgumentError /\ range (self (snd r')) = [(2 ^ 64, 6)] /\
   calls (snd r') = []).
Proof. vm_compute. repeat split. Qed.

(** ** Opening a legacy unit *)

(** The specification's reading of the legacy open: the maximum comes
    from the driver and the minimum is recorded as zero. *)
Definition legacy_open_records_zero_minimum (K : constants) (dll : driver)
  : Prop :=
  forall serial_number res w',
    ps5000a.open_unit K dll serial_number res new_world = (Ok tt, w') ->
    min_adc_value (self w') = Some 0.

(** C8, as stated, fails: opening the simulated unit succeeds and records
    its ceiling, yet no minimum is set. *)
Lemma legacy_open_counterexample :
  ~ legacy_open_records_zero_minimum Bench.K Bench.healthy.
Proof.
  intros H.
  pose (r := ps5000a.open_unit Bench.K Bench.healthy None 1 new_world).
  specialize (H None 1 (snd r)).
  assert (E : ps5000a.open_unit Bench.K Bench.healthy None 1 new_world
              = (Ok tt, snd r)) by (vm_compute; reflexivity).
  specialize (H E). vm_compute in H. discriminate.
Qed.

(** C8 (amended): after a successful [open_unit] on a ps5000a session,
    two native calls have been made, [OpenUnit] and then [MaximumValue] on
    the handle just obtained; [max_adc_value] is the value the driver
    stored in that second call, read back as a 16-bit signed integer; and
    [min_adc_value] is what it was before the call, that is [None] on a
    session fresh from the constructor: no zero minimum is recorded. *)
Theorem legacy_open_limits K dll serial_number res w w' :
  ps5000a.open_unit K dll serial_number res w = (Ok tt, w') ->
  exists c_open,
    let c_max := Call "ps5000aMaximumValue"
                   [AHandle (handle (self w')); AOut c_int16] in
    calls w' = calls w ++ [c_open; c_max] /\
    max_adc_value (self w')
    = Some (ctype_value c_int16
              (nth 0 (reply_outputs (dll (calls w ++ [c_open]) c_max)) 0)) /\
    min_adc_value (self w') = min_adc_value (self w).
Proof.
  unfold ps5000a.open_unit, _open_unit, _get_maximum_adc_value.
  set (a := match serial_number with Some s => ABytes s | None => ANone end).
  unfold bind at 1. unfold bind at 1.
  destruct (_call_attr_function _ _ _ "OpenUnit" _ w) as [[r1|e] w1] eqn:E1;
    [|discriminate].
  apply call_attr_ok in E1. destruct E1 as (_ & Hs1 & _ & Hc1).
  unfold set_resolution at 1. unfold bind at 1. unfold get_self at 1.
  unfold set_self at 1. cbn iota beta.
  unfold bind at 1. unfold bind at 1. unfold get_self at 1. cbn iota beta.
  unfold bind at 1. cbn [self handle].
  destruct (_call_attr_function _ _ _ "MaximumValue" _ _)
    as [[r2|e] w2] eqn:E2; [|discriminate].
  apply call_attr_ok in E2. destruct E2 as (Hr2 & Hs2 & _ & Hc2).
  unfold ret at 1. unfold set_max_adc_value, ret, bind, get_self, set_self.
  cbn iota beta. intros H. inversion H; subst w'. clear H.
  cbn [self calls handle max_adc_value min_adc_value] in *.
  exists (Call (String.append ps5000a._unit_prefix_n "OpenUnit")
            [AByRefHandle; a; AInt res]).
  cbv zeta. rewrite Hs2. cbn [called self handle min_adc_value calls].
  rewrite write_outs_handle by reflexivity.
  rewrite Hc2, Hc1. cbn [calls]. rewrite <- app_assoc. cbn [app].
  repeat split.
  - rewrite Hr2. cbn [snd write_outs calls handle self]. rewrite Hc1.
    change (String.append ps5000a._unit_prefix_n "MaximumValue")
      with "ps5000aMaximumValue".
    match goal with
    | |- context [reply_outputs ?x] => destruct (reply_outputs x)
    end; reflexivity.
  - rewrite Hs1. reflexivity.
Qed.

Lemma legacy_open_limits_witness :
  exists w',
    ps5000a.open_unit Bench.K Bench.healthy None 1 new_world = (Ok tt, w') /\
    max_adc_value (self w') = Some 32512 /\
    min_adc_value (self w') = None.
Proof.
  exists (snd (ps5000a.open_unit Bench.K Bench.healthy None 1 new_world)).
  assert (E : ps5000a.open_unit Bench.K Bench.healthy None 1 new_world
              = (Ok tt, snd (ps5000a.open_unit Bench.K Bench.healthy None 1
                               new_world))) by (vm_compute; reflexivity).
  split; [exact E|].
  destruct (legacy_open_limits Bench.K Bench.healthy None 1 new_world _ E)
    as (c & Hc & Hmax & Hmin).
  split; [vm_compute; reflexivity | exact Hmin].
Defined.

(** ** Disabling a channel *)

(** On a ps6000a, switching a channel off issues [SetChannelOff] and
    leaves the range table, from which the channels to allocate are
    taken, as it was. *)
Lemma ps6000a_disable_keeps_range K dll channel rng coupling offset bandwidth w :
  range (self (snd (ps6000a.set_channel K dll channel rng false coupling
                      offset bandwidth w)))
  = range (self w).
Proof.
  unfold ps6000a.set_channel, _set_channel_off.
  unfold bind at 1. unfold get_self at 1. cbn iota beta.
  unfold bind.
  destruct (forallb (marshals K) [AHandle (handle (self w)); AInt channel])
    eqn:Hm; [|rewrite native_refused by exact Hm; reflexivity].
  rewrite native_spec by exact Hm. cbn [fst].
  match goal with
  | |- context [_error_handler K dll ?p ?s ?w0] =>
      destruct (error_handler_frame K dll p s w0) as (Hs & _)
  end.
  cbv zeta in Hs. rewrite Hs. reflexivity.
Qed.

(** On a ps5000a, a [set_channel] call with [enabled=False] records the
    channel in the range table all the same. *)
Lemma ps5000a_disable_records_range K dll channel rng coupling offset w :
  dict_get (range (self (snd (ps5000a.set_channel K dll channel rng false
                                coupling offset w)))) channel
  = Some rng.
Proof.
  destruct (enable_pipeline_frame K dll "ps5000a" "ps5000aSetChannel"
              (c_float offset)
              (fun h d => set_channel_args h channel false coupling rng d)
              channel rng w (fun _ _ => eq_refl)) as [Hs _].
  change (self (snd (ps5000a.set_channel K dll channel rng false coupling
                       offset w))
          = with_range (self w) channel rng) in Hs.
  rewrite Hs. apply dict_get_set_eq.
Qed.

(** C3 (the code departs from it): channel 0 is enabled and then disabled
    on a ps6000a, or only ever configured as disabled on a ps5000a; the
    next [set_data_buffer_for_enabled_channels] nevertheless registers a
    buffer for it and returns a mapping that contains channel 0. *)
Theorem disabled_channel_still_allocated :
  let run6 :=
    (ps6000a.set_channel Bench.K Bench.healthy 0 6 true 1 (Float (Fin 0)) 0 ;;;
     ps6000a.set_channel Bench.K Bench.healthy 0 6 false 1 (Float (Fin 0)) 0 ;;;
     ps6000a.set_data_buffer_for_enabled_channels Bench.K Bench.healthy
       8 0 1 0 3) new_world in
  let run5 :=
    (ps5000a.set_channel Bench.K Bench.healthy 0 6 false 1 (Float (Fin 0)) ;;;
     ps5000a.set_data_buffer_for_enabled_channels Bench.K Bench.healthy
       8 0 0) new_world in
  (fst run6 = Ok 0%nat /\
   heap (snd run6) = [PyDict [(0, 1%nat)]; CArray c_int16 (repeat 0 8)] /\
   calls (snd run6)
   = [Call "ps6000aSetChannelOn"
        [AHandle 0; AInt 0; AInt 1; AInt 6; ADouble (Float (Fin 0)); AInt 0];
      Call "ps6000aSetChannelOff" [AHandle 0; AInt 0];
      Call "ps6000aSetDataBuffer"
        [AHandle 0; AInt 0; AByRefArray 1%nat; AInt 8; AInt 1; AInt 0;
         AInt 0; AInt 3]]) /\
  (fst run5 = Ok 0%nat /\
   heap (snd run5) = [PyDict [(0, 1%nat)]; CArray c_int16 (repeat 0 8)] /\
   calls (snd run5)
   = [Call "ps5000aSetChannel"
        [AHandle 0; AInt 0; ABool false; AInt 1; AInt 6;
         AFloat (Float (Fin 0))];
      Call "ps5000aSetDataBuffer"
        [AHandle 0; AInt 0; AByRefArray 1%nat; AInt 8; AInt 0; AInt 0]]).
Proof. vm_compute. repeat split. Qed.

(** ** Buffer allocation *)

Lemma lookup_app_length {A} (l : list A) (x : A) :
  (l ++ [x]) !! length l = Some x.
Proof.
  rewrite lookup_app_r by lia. rewrite Nat.sub_diag. reflexivity.
Qed.












Lemma healthy_accepted h c :
  accepted Bench.K (ctype_value c_int32 (reply_status (Bench.healthy h c))).
Proof.
  assert (E : reply_status (Bench.healthy h c) = 0).
  { destruct c as [name args]. unfold Bench.healthy.
    repeat match goal with
           | |- context [if ?b then _ else _] => destruct b
           end; reflexivity. }
  rewrite E. split; [eexists; reflexivity | left; reflexivity].
Qed.


(** ** Bulk conversion of a channel-to-buffer mapping *)

(** The world with one more object on the heap. *)
Definition extend (w : world) (o : obj) : world :=
  {| self := self w; heap := heap w ++ [o]; calls := calls w;
     stdout := stdout w |}.

(** Capture buffers and converted buffers, as opposed to mappings. *)
Definition is_buffer (o : obj) : Prop :=
  match o with
  | PyDict _ => False
  | _ => True
  end.

(** Both bulk conversions run the same loop,
    [for channel in d: d[channel] = convert(d[channel], channel)];
    it is analysed once, for any conversion [f] that allocates the object
    [g channel o] from the object [o] it is given. *)
Section BulkConversion.
Variable f : loc -> Z -> M loc.
Variable g : Z -> obj -> obj.
Variable P : Z -> obj -> Prop.
Variable s : PicoScopeBase.
Hypothesis f_spec : forall b k w o,
  self w = s -> heap w !! b = Some o -> P k o ->
  f b k w = (Ok (length (heap w)), extend w (g k o)).

Definition convert_entry (cb : loc) (channel : Z) : M unit :=
  b <- getitem cb channel ;;
  v <- f b channel ;;
  setitem cb channel v.

Lemma convert_entry_spec cb k w m b o :
  self w = s -> heap w !! cb = Some (PyDict m) ->
  dict_get m k = Some b -> heap w !! b = Some o -> P k o ->
  convert_entry cb k w
  = (Ok tt,
     {| self := self w;
        heap := <[cb := PyDict (dict_set m k (length (heap w)))]>
                  (heap w ++ [g k o]);
        calls := calls w; stdout := stdout w |}).
Proof.
  intros Hs Hcb Hk Hb HP. unfold convert_entry, getitem, setitem.
  unfold bind at 1. unfold bind at 1. unfold deref at 1. rewrite Hcb.
  unfold lift, dict_getitem. rewrite Hk.
  unfold bind at 1. rewrite (f_spec b k w o Hs Hb HP).
  unfold bind, deref, store, extend. cbn [heap self calls stdout].
  rewrite lookup_app_l by (apply lookup_lt_Some in Hcb; exact Hcb).
  rewrite Hcb. reflexivity.
Qed.

Lemma convert_loop cb ks : forall w m,
  self w = s -> heap w !! cb = Some (PyDict m) -> List.NoDup ks ->
  (forall k, In k ks ->
     exists b o, dict_get m k = Some b /\ b <> cb /\
                 heap w !! b = Some o /\ P k o) ->
  exists w' m',
    for_each ks (convert_entry cb) w = (Ok tt, w') /\
    self w' = s /\ calls w' = calls w /\ stdout w' = stdout w /\
    heap w' !! cb = Some (PyDict m') /\
    dict_keys m' = dict_keys m /\
    (forall k, ~ In k ks -> dict_get m' k = dict_get m k) /\
    (forall k b o, In k ks -> dict_get m k = Some b ->
       heap w !! b = Some o ->
       exists l, dict_get m' k = Some l /\ (length (heap w) <= l)%nat /\
                 heap w' !! l = Some (g k o)) /\
    (forall l o, l <> cb -> heap w !! l = Some o -> heap w' !! l = Some o).
Proof.
  induction ks as [|k ks IH]; intros w m Hs Hcb Hnd Hall.
  - exists w, m. simpl. unfold ret. repeat split; auto; intros; tauto.
  - destruct (proj1 (List.NoDup_cons_iff k ks) Hnd) as [Hk Hnd'].
    destruct (Hall k (or_introl eq_refl)) as (b & o & Hb & Hbc & Ho & HP).
    pose proof (lookup_lt_Some _ _ _ Hcb) as Hlt.
    simpl. unfold bind at 1.
    rewrite (convert_entry_spec cb k w m b o Hs Hcb Hb Ho HP).
    set (n := length (heap w)).
    set (w2 := {| self := self w;
                  heap := <[cb := PyDict (dict_set m k n)]> (heap w ++ [g k o]);
                  calls := calls w; stdout := stdout w |}).
    assert (Hold : forall l x, l <> cb -> heap w !! l = Some x ->
                               heap w2 !! l = Some x).
    { intros l x Hl Hx. unfold w2. cbn [heap].
      rewrite list_lookup_insert_ne by congruence.
      rewrite lookup_app_l by (apply lookup_lt_Some in Hx; exact Hx).
      exact Hx. }
    assert (Hcb2 : heap w2 !! cb = Some (PyDict (dict_set m k n))).
    { unfold w2. cbn [heap]. apply list_lookup_insert_eq.
      rewrite length_app. simpl. lia. }
    assert (Hlen2 : length (heap w2) = S n).
    { unfold w2. cbn [heap]. rewrite length_insert, length_app. simpl.
      unfold n. lia. }
    destruct (IH w2 (dict_set m k n) Hs Hcb2 Hnd') as
      (w' & m' & Hrun & Hs' & Hc' & Ho' & Hcb' & Hkeys & Hrest & Hnew & Hkeep).
    { intros k' Hk'. destruct (Hall k' (or_intror Hk'))
        as (b' & o' & Hb' & Hbc' & Hob' & HP').
      exists b', o'. repeat split; auto.
      rewrite dict_get_set_ne by (intros ->; contradiction). exact Hb'. }
    exists w', m'. split; [exact Hrun|]. split; [exact Hs'|].
    split; [exact Hc'|]. split; [exact Ho'|]. split; [exact Hcb'|].
    split; [|split; [|split]].
    + rewrite Hkeys. apply dict_keys_set_in.
      apply dict_get_in_keys. eauto.
    + intros k' Hk'. rewrite Hrest by (intros ?; apply Hk'; right; auto).
      apply dict_get_set_ne. intros ->. apply Hk'. left. reflexivity.
    + intros k' b' o' [->|Hk'] Hb' Hob'.
      * exists n. rewrite (Hrest k' Hk), dict_get_set_eq.
        repeat split; [unfold n; lia|].
        rewrite Hb' in Hb. inversion Hb; subst b'.
        rewrite Hob' in Ho. inversion Ho; subst o'.
        apply Hkeep; [unfold n; lia|].
        unfold w2. cbn [heap].
        rewrite list_lookup_insert_ne by (unfold n; lia).
        apply lookup_app_length.
      * destruct (Hall k' (or_intror Hk'))
          as (b2 & o2 & Hb2 & Hbc2 & Hob2 & _).
        rewrite Hb' in Hb2. inversion Hb2; subst b2.
        destruct (Hnew k' b' o' Hk') as (l & Hl & Hge & Hl').
        { rewrite dict_get_set_ne by (intros ->; contradiction). exact Hb'. }
        { apply Hold; assumption. }
        exists l. repeat split; auto. rewrite Hlen2 in Hge. unfold n in Hge. lia.
    + intros l x Hl Hx. apply Hkeep; [exact Hl|]. apply Hold; assumption.
Qed.

End BulkConversion.

(** The list comprehension of [buffer_adc_to_mv], read as a pure function
    of the session: each sample goes through [adc_to_mv] with the range
    recorded for the channel. *)
Definition sample_to_mv (K : constants) (s : PicoScopeBase) (channel : Z)
  (sample : num) : result num :=
  rbind (dict_getitem (range s) channel) (fun r =>
  rbind (adc_to_mv K s sample r) (fun v => Ok (Float v))).

Fixpoint samples_to_mv (K : constants) (s : PicoScopeBase) (channel : Z)
  (buffer : list num) : result (list num) :=
  match buffer with
  | [] => Ok []
  | x :: rest =>
      rbind (sample_to_mv K s channel x) (fun v =>
      rbind (samples_to_mv K s channel rest) (fun vs => Ok (v :: vs)))
  end.

Lemma map_m_samples K channel items w :
  map_m (fun sample =>
           s <- get_self ;;
           r <- lift (dict_getitem (range s) channel) ;;
           v <- lift (adc_to_mv K s sample r) ;;
           ret (Float v)) items w
  = (samples_to_mv K (self w) channel items, w).
Proof.
  induction items as [|x items IH]; [reflexivity|].
  cbn [map_m samples_to_mv]. unfold bind at 1. unfold bind at 1.
  unfold get_self at 1. cbn iota beta. unfold sample_to_mv, rbind.
  unfold bind at 1. unfold lift at 1.
  destruct (dict_getitem (range (self w)) channel) as [r|e]; [|reflexivity].
  unfold bind at 1. unfold lift at 1.
  destruct (adc_to_mv K (self w) x r) as [v|e]; [|reflexivity].
  unfold ret at 1. unfold bind at 1. rewrite IH.
  destruct (samples_to_mv K (self w) channel items); reflexivity.
Qed.

Lemma buffer_adc_to_mv_spec K b channel w o vs :
  heap w !! b = Some o ->
  samples_to_mv K (self w) channel (items_of o) = Ok vs ->
  buffer_adc_to_mv K b channel w
  = (Ok (length (heap w)), extend w (PyList vs)).
Proof.
  intros Hb Hvs. unfold buffer_adc_to_mv.
  unfold bind at 1. unfold deref at 1. rewrite Hb.
  unfold bind at 1. rewrite map_m_samples, Hvs. reflexivity.
Qed.


Lemma keys_of_spec cb d w :
  heap w !! cb = Some (PyDict d) -> keys_of cb w = (Ok (dict_keys d), w).
Proof.
  intros H. unfold keys_of, bind, deref. rewrite H. reflexivity.
Qed.


(** A capture on the simulated unit: the mapping (object 0) binds
    channel 0 to a three-sample buffer (object 1). *)
Definition captured : world :=
  {| self := Bench.opened;
     heap := [PyDict [(0, 1%nat)]; CArray c_int16 [0; 16256; -32512]];
     calls := []; stdout := [] |}.


(** The same run, evaluated: the mapping is object 0 before and after,
    and channel 0 is now bound to a new list (object 2) of millivolt
    values, 0, 500 and -1000, while the raw buffer stays at object 1. *)
Example bulk_conversion_run :
  let r := buffer_adc_to_mv_multiple_channels Bench.K 0%nat captured in
  fst r = Ok 0%nat /\
  heap (snd r)
  = [PyDict [(0, 2%nat)]; CArray c_int16 [0; 16256; -32512];
     PyList [Float (Fin 0); Float (Fin 500); Float (Fin (-1000))]].
Proof. vm_compute. split; reflexivity. Qed.

(* ===================================================================== *)
(** * Rounding *)
(* ===================================================================== *)

(** ** Agreement with the machine's binary64 *)

(** The exact rational value of a primitive float, when finite. *)
Definition Q_of_prim (f : PrimFloat.float) : option Q :=
  match Prim2SF f with
  | S754_zero _ => Some 0%Q
  | S754_finite s m e =>
      let v := if s then Z.neg m else Z.pos m in
      Some (Qred (if 0 <=? e then inject_Z (v * 2 ^ e)
                  else v # Z.to_pos (2 ^ (- e))))
  | _ => None
  end.

Definition prim_of_Z (z : Z) : PrimFloat.float :=
  if z <? 0 then PrimFloat.opp (PrimFloat.of_uint63 (Uint63.of_Z (- z)))
  else PrimFloat.of_uint63 (Uint63.of_Z z).

Definition finite_value (f : float) : option Q :=
  match f with
  | Fin q => Some q
  | _ => None
  end.

(** On these operands the model and the primitive floats of the kernel
    compute the same quotients and products, bit for bit. *)
Example round_agrees_with_machine :
  forallb (fun '(a, b) =>
             match finite_value (round (inject_Z a / inject_Z b)),
                   Q_of_prim (PrimFloat.div (prim_of_Z a) (prim_of_Z b)) with
             | Some x, Some y => Qeq_bool x y && (Qnum x =? Qnum y)
             | _, _ => false
             end)
    [(1, 10); (1, 3); (-32504, 32512); (16256, 32512); (33000, 100);
     (7, 100); (2 ^ 53 - 1, 100); (9007199254740881, 100); (500, 1000);
     (-1, 32767); (1234567890123456, 987654321)]
  = true /\
  forallb (fun '(a, b, c) =>
             match round (inject_Z a / inject_Z b) with
             | Fin q =>
                 match finite_value (round (q * inject_Z c)),
                       Q_of_prim (PrimFloat.mul
                                    (PrimFloat.div (prim_of_Z a) (prim_of_Z b))
                                    (prim_of_Z c)) with
                 | Some x, Some y => Qeq_bool x y && (Qnum x =? Qnum y)
                 | _, _ => false
                 end
             | _ => false
             end)
    [(1, 3, 1000); (-32504, 32512, 10); (16256, 32512, 1000);
     (12345, 32767, 20000); (-7, 11, 13)]
  = true.
Proof. vm_compute. split; reflexivity. Qed.

(** Between two ints Python rounds the exact quotient once:
    [900719925474099300 / 100] is [9007199254740992.0], whereas converting
    the dividend first would give [9007199254740994.0]. *)
Example int_truediv_rounds_once :
  Py.truediv (Py.Int 900719925474099300) (Py.Int 100)
  = Py.Ok (Fin (inject_Z 9007199254740992)) /\
  Py.truediv (Py.Float (round (inject_Z 900719925474099300))) (Py.Int 100)
  = Py.Ok (Fin (inject_Z 9007199254740994)).
Proof. vm_compute. split; reflexivity. Qed.

(** ** Integer facts about round-to-nearest-even *)

Lemma rne_floor a b : 0 < b -> a / b <= rne a b <= a / b + 1.
Proof.
  intros Hb. unfold rne.
  destruct (2 * (a mod b) ?= b); [destruct (Z.even (a / b))|..]; lia.
Qed.

Lemma rne_half a b : 0 < b -> 2 * Z.abs (rne a b * b - a) <= b.
Proof.
  intros Hb. unfold rne.
  pose proof (Z.div_mod a b ltac:(lia)) as Hdm.
  pose proof (Z.mod_pos_bound a b Hb) as Hm.
  revert Hdm Hm. generalize (a / b) (a mod b). intros q r Hdm Hm.
  assert (E1 : q * b - a = - r) by (rewrite Hdm; ring).
  assert (E2 : (q + 1) * b - a = b - r) by (rewrite Hdm; ring).
  destruct (Z.compare_spec (2 * r) b) as [E|E|E].
  - destruct (Z.even q); [rewrite E1 | rewrite E2]; lia.
  - rewrite E1. lia.
  - rewrite E2. lia.
Qed.

Lemma rne_exact q b : 0 < b -> rne (q * b) b = q.
Proof.
  intros Hb. unfold rne.
  rewrite Z.div_mul, Z.mod_mul by lia.
  destruct (Z.compare_spec (2 * 0) b) as [E|E|E]; try reflexivity; lia.
Qed.

Lemma rne_scale c a b : 0 < c -> 0 < b -> rne (c * a) (c * b) = rne a b.
Proof.
  intros Hc Hb. unfold rne.
  rewrite Z.div_mul_cancel_l by lia.
  rewrite Z.mul_mod_distr_l by lia.
  replace (2 * (c * (a mod b))) with (c * (2 * (a mod b))) by ring.
  rewrite <- (Zmult_compare_compat_l (2 * (a mod b)) b c) by lia.
  reflexivity.
Qed.

Lemma log2_lt_pow2' a b : 0 <= b -> a < 2 ^ b -> Z.log2 a <= b - 1 \/ (a <= 0 /\ Z.log2 a = 0).
Proof.
  intros Hb H. destruct (Z.le_gt_cases a 0) as [Ha|Ha].
  - right. split; [exact Ha|]. apply Z.log2_nonpos. exact Ha.
  - left. apply Z.log2_lt_pow2 in H; lia.
Qed.

(** Dividing a 53-bit non-negative integer by 100: the binary64 quotient
    lies in the unit interval that starts at the integer quotient. *)
Lemma round_scaled_div_100 a :
  0 <= a < 2 ^ 53 ->
  let M := round_scaled (a * 2 ^ emin_shift) 100 in
  a / 100 * 2 ^ emin_shift <= M < (a / 100 + 1) * 2 ^ emin_shift.
Proof.
  intros Ha. unfold round_scaled, prec, emin_shift.
  set (N := a * 2 ^ 1074).
  set (j := Z.max (Z.log2 (N / 100) - (53 - 1)) 0).
  assert (Hj : 0 <= j <= 1068).
  { split; [unfold j; lia|].
    assert (HN : N / 100 < 2 ^ 1121).
    { apply Z.div_lt_upper_bound; [lia|].
      unfold N. replace (2 ^ 1121) with (2 ^ 47 * 2 ^ 1074)
        by (rewrite <- Z.pow_add_r by lia; reflexivity).
      assert (0 < 2 ^ 1074) by (apply Z.pow_pos_nonneg; lia).
      assert (100 * 2 ^ 47 > 2 ^ 53) by (vm_compute; reflexivity).
      nia. }
    apply log2_lt_pow2' in HN; [|lia]. unfold j. lia. }
  set (t := 2 ^ (1074 - j)).
  assert (Ht : 64 <= t).
  { unfold t. change 64 with (2 ^ 6). apply Z.pow_le_mono_r; lia. }
  assert (Hpj : 0 < 2 ^ j) by (apply Z.pow_pos_nonneg; lia).
  assert (E : 2 ^ 1074 = t * 2 ^ j).
  { unfold t. rewrite <- Z.pow_add_r by lia. f_equal. lia. }
  assert (EN : N = 2 ^ j * (a * t)) by (unfold N; rewrite E; ring).
  rewrite EN, (Z.mul_comm 100 (2 ^ j)), rne_scale by lia.
  set (k := rne (a * t) 100).
  pose proof (rne_floor (a * t) 100 ltac:(lia)) as Hfl. fold k in Hfl.
  pose proof (rne_half (a * t) 100 ltac:(lia)) as Hhalf. fold k in Hhalf.
  pose proof (Z.div_mod a 100 ltac:(lia)) as Hdm.
  pose proof (Z.mod_pos_bound a 100 ltac:(lia)) as Hm.
  revert Hdm Hm. generalize (a / 100) (a mod 100). intros q r Hdm Hm.
  rewrite E.
  assert (H1 : q * t <= k).
  { apply Z.le_trans with (a * t / 100); [|lia].
    apply Z.div_le_lower_bound; [lia|]. nia. }
  assert (H2 : k < (q + 1) * t) by nia.
  split; nia.
Qed.

Lemma trunc_comp x y : (x == y)%Q -> trunc x = trunc y.
Proof.
  destruct x as [n1 d1], y as [n2 d2]. unfold Qeq, trunc. simpl. intros H.
  rewrite <- (Z.quot_mul_cancel_r n1 (Zpos d1) (Zpos d2)) by lia.
  rewrite H.
  rewrite (Z.mul_comm (Zpos d1) (Zpos d2)).
  apply Z.quot_mul_cancel_r; lia.
Qed.

Lemma pow2_pos e : 0 <= e -> 0 < 2 ^ e.
Proof. intros. apply Z.pow_pos_nonneg; lia. Qed.

(** A non-negative scaled value below the overflow threshold is a finite
    float whose truncation is the integer part of the value. *)
Lemma of_scaled_trunc M :
  0 <= M < overflow_threshold ->
  exists q, of_scaled false M = Fin q /\ trunc q = M / 2 ^ emin_shift.
Proof.
  intros HM. unfold of_scaled.
  destruct (overflow_threshold <=? M) eqn:E; [apply Z.leb_le in E; lia|].
  eexists. split; [reflexivity|].
  rewrite (trunc_comp _ _ (Qred_correct _)). unfold trunc. cbn [Qnum Qden].
  rewrite Z2Pos.id by (apply pow2_pos; unfold emin_shift; lia).
  apply Z.quot_div_nonneg; [lia | apply pow2_pos; unfold emin_shift; lia].
Qed.

Lemma truediv_100_trunc a :
  0 <= a < 2 ^ 53 ->
  exists q, truediv (Int a) (Int 100) = Ok (Fin q) /\ trunc q = a / 100.
Proof.
  intros Ha. unfold truediv. cbn [Z.eqb].
  unfold round. cbn [Qnum Qden inject_Z Qdiv Qmult Qinv].
  change (Z.pos (1 * 100)) with 100. rewrite Z.mul_1_r.
  destruct (Z.ltb_spec a 0) as [|_]; [lia|]. rewrite Z.abs_eq by lia.
  pose proof (round_scaled_div_100 a Ha) as HM. cbv zeta in HM.
  set (M := round_scaled (a * 2 ^ emin_shift) 100) in *.
  assert (Hp : 0 < 2 ^ emin_shift) by (apply pow2_pos; unfold emin_shift; lia).
  assert (Hq : 0 <= a / 100 < 2 ^ 53).
  { split; [apply Z.div_pos; lia|].
    apply Z.div_lt_upper_bound; lia. }
  destruct (of_scaled_trunc M) as (q & Eq & Hq').
  { split; [nia|]. unfold overflow_threshold.
    rewrite Z.pow_add_r by (unfold emin_shift; lia).
    assert (2 ^ 53 + 1 <= 2 ^ 1024) by (vm_compute; discriminate). nia. }
  exists q. rewrite Eq. split; [reflexivity|].
  rewrite Hq'. symmetry. apply Z.div_unique_pos with (r := M - a / 100 * 2 ^ emin_shift); lia.
Qed.

(** ** The pre/post-trigger split *)

(** The split as the specification states it, for every non-negative
    sample count and every percentage from 0 to 100. *)
Definition splits_every_sample_count : Prop :=
  forall samples pct,
    0 <= samples -> 0 <= pct <= 100 ->
    exists pre post,
      pre_post_samples samples pct = Ok (pre, post) /\
      pre = samples * pct / 100 /\
      pre + post = samples /\
      (pct = 0 -> pre = 0) /\ (pct = 100 -> post = 0).

(** C4, as stated, fails: with [2^53 + 1] samples and 100 percent, the
    float quotient [(samples * 100) / 100] rounds to [2^53], so one sample
    is left in the post-trigger share. *)
Lemma block_split_counterexample : ~ splits_every_sample_count.
Proof.
  intros H.
  destruct (H (2 ^ 53 + 1) 100) as (pre & post & E & _ & _ & _ & H100);
    [lia | lia |].
  specialize (H100 eq_refl). subst post.
  vm_compute in E. discriminate.
Qed.

(** C4 (amended): for every non-negative sample count and every integer
    percentage from 0 to 100 whose product is below [2^53] (so that the
    float division by 100 cannot round across an integer),
    [run_block_capture] computes [pre_samples] as the integer truncation
    of [samples * pre_trig_percent / 100] and [post_samples] as the
    remainder; their sum is the sample count, 0 percent gives no
    pre-trigger sample and 100 percent no post-trigger sample.  Exactly
    these two shares are passed to [RunBlock] when ctypes can convert
    the arguments of the call; when it cannot, [ArgumentError] is raised
    and no call is made.  Whatever the inputs, whenever the split is
    computed at all its two shares add up to the sample count. *)
Theorem block_split K dll pfx timebase samples pct segment w :
  0 <= samples -> 0 <= pct <= 100 -> samples * pct < 2 ^ 53 ->
  (exists pre post,
     pre_post_samples samples pct = Ok (pre, post) /\
     pre = samples * pct / 100 /\
     pre + post = samples /\
     (pct = 0 -> pre = 0) /\ (pct = 100 -> post = 0) /\
     let args := [AHandle (handle (self w)); AInt pre; AInt post;
                  AInt timebase; AOut c_int32; AInt segment; ANone; ANone] in
     let run := run_block_capture K dll pfx timebase samples pct segment w in
     (forallb (marshals K) args = true ->
      exists rest,
        calls (snd run)
        = calls w ++ Call (String.append pfx "RunBlock") args :: rest) /\
     (forallb (marshals K) args = false ->
      run = (Raise ArgumentError, w))) /\
  (forall s p pre post,
     pre_post_samples s p = Ok (pre, post) -> pre + post = s).
Proof.
  intros Hs Hp Hlt. split.
  - destruct (truediv_100_trunc (samples * pct)) as (q & Eq & Hq); [nia|].
    exists (samples * pct / 100), (samples - samples * pct / 100).
    assert (Esplit : pre_post_samples samples pct
                     = Ok (samples * pct / 100,
                           samples - samples * pct / 100)).
    { unfold pre_post_samples. cbn [mul rbind]. rewrite Eq.
      cbn [rbind int]. rewrite Hq. reflexivity. }
    split; [exact Esplit|]. split; [reflexivity|]. split; [lia|].
    split; [|split].
    + intros ->. rewrite Z.mul_0_r. reflexivity.
    + intros ->. rewrite Z.div_mul by lia. lia.
    + cbv zeta. unfold run_block_capture. unfold bind, lift, get_self.
      rewrite Esplit. cbn [fst snd]. split; intros Hm.
      * destruct (call_attr_calls K dll pfx "RunBlock" _ w Hm)
          as [rest Hc].
        destruct (_call_attr_function K dll pfx "RunBlock" _ w)
          as [[r|e] w1]; cbn [snd] in Hc; unfold ret; cbn [snd];
          exists rest; exact Hc.
      * rewrite (call_attr_refused K dll pfx "RunBlock" _ w Hm).
        reflexivity.
  - intros s p pre post. unfold pre_post_samples. cbn [mul rbind].
    destruct (truediv _ _) as [f|e]; [|discriminate]. cbn [rbind].
    destruct (int (Float f)) as [z|e]; [|discriminate]. cbn [rbind int].
    intros H. inversion H; subst. lia.
Qed.

Lemma block_split_witness :
  exists pre post,
    pre_post_samples 1000 33 = Ok (pre, post) /\
    pre = 330 /\ pre + post = 1000.
Proof.
  destruct (block_split Bench.K Bench.healthy "ps6000a" 3 1000 33 0 new_world)
    as [(pre & post & E & Hpre & Hsum & _) _]; [lia | lia | lia |].
  exists pre, post. repeat split; [exact E | | exact Hsum].
  rewrite Hpre. reflexivity.
Defined.

(** ** The relative error of one rounding *)

Lemma round_scaled_zero d : 0 < d -> round_scaled 0 d = 0.
Proof.
  intros Hd. unfold round_scaled, rne. rewrite Z.div_0_l by lia.
  cbn [Z.log2]. change (Z.max (0 - (prec - 1)) 0) with 0.
  rewrite Z.pow_0_r, !Z.mul_1_r, Z.div_0_l, Z.mod_0_l by lia.
  destruct (Z.compare_spec (2 * 0) d); try reflexivity; lia.
Qed.

Lemma round_scaled_rel N d :
  0 < d -> 2 ^ 52 * d <= N ->
  2 ^ 53 * Z.abs (round_scaled N d * d - N) <= N.
Proof.
  intros Hd HN. unfold round_scaled, prec.
  assert (Hq : 2 ^ 52 <= N / d) by (apply Z.div_le_lower_bound; lia).
  assert (HL : 52 <= Z.log2 (N / d)).
  { change 52 with (Z.log2 (2 ^ 52)). apply Z.log2_le_mono. exact Hq. }
  destruct (Z.log2_spec (N / d)) as [Hlo _]; [lia|].
  rewrite Z.max_l by lia.
  set (L := Z.log2 (N / d)) in *. set (j := L - (53 - 1)).
  assert (Hj : 0 <= j) by (unfold j; lia).
  assert (Hpj : 0 < 2 ^ j) by (apply Z.pow_pos_nonneg; lia).
  assert (EL : 2 ^ L = 2 ^ 52 * 2 ^ j).
  { rewrite <- Z.pow_add_r by lia. f_equal. unfold j. lia. }
  assert (HdL : 2 ^ L * d <= N).
  { pose proof (Z.mul_div_le N d Hd). nia. }
  pose proof (rne_half N (d * 2 ^ j) ltac:(nia)) as Hh.
  set (k := rne N (d * 2 ^ j)) in *.
  replace (k * 2 ^ j * d - N) with (k * (d * 2 ^ j) - N) by ring.
  rewrite EL in HdL.
  revert Hh. generalize (Z.abs (k * (d * 2 ^ j) - N)). intros a Hh.
  assert (E53 : 2 ^ 53 = 2 * 2 ^ 52) by reflexivity.
  rewrite E53. nia.
Qed.

(** The unit roundoff of binary64 and the bounds of its normal range. *)
Definition unit_roundoff : Q := 1 # 2 ^ 53.
Definition tiny : Q := 1 # 2 ^ 1022.
Definition huge : Q := inject_Z (2 ^ 1023).

Lemma round_zero x : Qnum x = 0 -> round x = Fin 0.
Proof.
  intros H. unfold round. rewrite H. cbn [Z.abs Z.mul Z.ltb Z.compare].
  rewrite round_scaled_zero by lia. vm_compute. reflexivity.
Qed.

Lemma of_scaled_value s M :
  0 <= M < overflow_threshold ->
  exists y, of_scaled s M = Fin y /\
            (y == (if s then - M else M) # Z.to_pos (2 ^ emin_shift))%Q.
Proof.
  intros HM. unfold of_scaled.
  destruct (Z.leb_spec overflow_threshold M); [lia|].
  eexists. split; [reflexivity | apply Qred_correct].
Qed.

Lemma round_rel x :
  (tiny <= Qabs x)%Q -> (Qabs x <= huge)%Q ->
  exists y, round x = Fin y /\ (Qabs (y - x) <= unit_roundoff * Qabs x)%Q.
Proof.
  destruct x as [n d]. intros Hlo Hhi.
  unfold tiny, huge, Qle, Qabs in Hlo, Hhi. cbn [Qnum Qden inject_Z] in Hlo, Hhi.
  rewrite Pos2Z.inj_pow, Z.mul_1_l in Hlo. rewrite Z.mul_1_r in Hhi.
  change (Z.pos 2 ^ Z.pos 1022) with (2 ^ 1022) in Hlo.
  unfold round. cbn [Qnum Qden].
  set (S := 2 ^ emin_shift).
  assert (HS : 0 < S) by (apply pow2_pos; unfold emin_shift; lia).
  assert (ES : S = 2 ^ 1022 * 2 ^ 52) by reflexivity.
  set (N := Z.abs n * S).
  assert (HN : 2 ^ 52 * Z.pos d <= N).
  { unfold N. rewrite ES. 
    assert (0 < 2 ^ 52) by (apply pow2_pos; lia). nia. }
  pose proof (round_scaled_rel N (Z.pos d) ltac:(lia) HN) as Hrel.
  set (M := round_scaled N (Z.pos d)) in *.
  assert (HM : 0 <= M < overflow_threshold).
  { assert (HNhi : N <= 2 ^ 1023 * S * Z.pos d) by (unfold N; nia).
    assert (E : overflow_threshold = 2 * (2 ^ 1023 * S)) by reflexivity.
    assert (0 < 2 ^ 1023 * S) by (apply Z.mul_pos_pos; [apply pow2_pos|]; lia).
    assert (0 < 2 ^ 53) by (apply pow2_pos; lia).
    assert (0 <= N) by (unfold N; lia).
    rewrite E. split.
    - destruct (Z.le_gt_cases 0 M) as [|Hneg]; [assumption|exfalso].
      assert (N <= Z.abs (M * Z.pos d - N)) by nia. nia.
    - assert (2 ^ 53 * (M * Z.pos d - N) <= N) by lia.
      assert (2 ^ 53 * (M * Z.pos d) <= (2 ^ 53 + 1) * (2 ^ 1023 * S * Z.pos d)) by nia.
      assert (2 ^ 53 + 1 < 2 * 2 ^ 53) by (vm_compute; reflexivity).
      nia. }
  destruct (of_scaled_value (n <? 0) M HM) as (y & Ey & Hy).
  exists y. split; [exact Ey|].
  rewrite Hy. fold S.
  unfold unit_roundoff, Qle, Qabs, Qminus, Qplus, Qopp, Qmult.
  cbn [Qnum Qden]. rewrite !Pos2Z.inj_mul, Pos2Z.inj_pow, Z2Pos.id by lia.
  rewrite Z.mul_1_l.
  assert (E : Z.abs ((if n <? 0 then - M else M) * Z.pos d + - n * S)
              = Z.abs (M * Z.pos d - N)).
  { unfold N. destruct (Z.ltb_spec n 0).
    - rewrite (Z.abs_neq n) by lia.
      replace (- M * Z.pos d + - n * S) with (- (M * Z.pos d - - n * S)) by ring.
      apply Z.abs_opp.
    - rewrite (Z.abs_eq n) by lia. f_equal. ring. }
  rewrite E. change (Z.pos 2 ^ Z.pos 53) with (2 ^ 53). fold N. nia.
Qed.

(** ** Accumulating relative errors *)

Local Open Scope Q_scope.

(** Replacing a rational expression by one the field identities make
    equal to it. *)
Ltac qreplace a b :=
  let E := fresh "E" in
  assert (E : a == b) by ring; rewrite E; clear E.
Ltac qreplace_in a b H :=
  let E := fresh "E" in
  assert (E : a == b) by ring; rewrite E in H; clear E.

(** [y] approximates [x] with relative error at most [e]. *)
Definition close (e y x : Q) : Prop := Qabs (y - x) <= e * Qabs x.

Lemma close_refl x : close 0 x x.
Proof.
  unfold close. qreplace (x - x) (0).
  rewrite Qmult_0_l. apply Qle_refl.
Qed.

Lemma close_exact_r e y x x' : x == x' -> close e y x -> close e y x'.
Proof. unfold close. intros ->. tauto. Qed.

Lemma close_mul e y x c : close e y x -> close e (y * c) (x * c).
Proof.
  unfold close. intros H.
  qreplace (y * c - x * c) (((y - x) * c)).
  rewrite !Qabs_Qmult, Qmult_assoc.
  apply Qmult_le_compat_r; [exact H | apply Qabs_nonneg].
Qed.

Lemma close_abs e y x :
  close e y x -> (1 - e) * Qabs x <= Qabs y /\ Qabs y <= (1 + e) * Qabs x.
Proof.
  unfold close. intros H.
  pose proof (Qabs_triangle (y - x) x) as H1.
  qreplace_in (y - x + x) (y) H1.
  pose proof (Qabs_triangle (x - y) y) as H2.
  qreplace_in (x - y + y) (x) H2.
  assert (E : Qabs (x - y) == Qabs (y - x)).
  { qreplace (x - y) ((- (y - x))). apply Qabs_opp. }
  rewrite E in H2. split; lra.
Qed.

Lemma close_zero e y x : x == 0 -> close e y x -> y == 0.
Proof.
  unfold close. intros -> H. rewrite Qmult_0_r in H.
  qreplace_in (y - 0) (y) H.
  pose proof (Qabs_nonneg y). 
  destruct (Qabs_Qle_condition y 0) as [Hc _]. specialize (Hc H).
  simpl in Hc. lra.
Qed.

(** One rounding adds one unit roundoff to the accumulated error. *)
Lemma close_round e y x :
  0 <= e -> e <= 1 # 2 ->
  x == 0 \/ (2 * tiny <= Qabs x /\ 2 * Qabs x <= huge) ->
  close e y x ->
  exists z, round y = Fin z /\
            close (e + unit_roundoff + unit_roundoff * e) z x.
Proof.
  intros He0 He Hx Hc. destruct Hx as [Hx|[Hlo Hhi]].
  - pose proof (close_zero e y x Hx Hc) as Hy.
    exists 0. split.
    + apply round_zero. unfold Qeq in Hy. simpl in Hy. lia.
    + unfold close. rewrite Hx. 
      qreplace (0 - 0) (0). simpl. 
      rewrite Qmult_0_r. apply Qle_refl.
  - destruct (close_abs e y x Hc) as [Ha Hb].
    assert (Hu : 0 <= unit_roundoff) by (unfold unit_roundoff; discriminate).
    pose proof (Qabs_nonneg x) as Hx0.
    destruct (round_rel y) as (z & Ez & Hz).
    + nra.
    + nra.
    + exists z. split; [exact Ez|]. unfold close in *.
      pose proof (Qabs_triangle (z - y) (y - x)) as Ht.
      qreplace_in (z - y + (y - x)) ((z - x)) Ht.
      nra.
Qed.

Local Open Scope Z_scope.

(** ** Integers that are floats *)

Lemma round_scaled_integer z :
  0 <= z < 2 ^ 53 ->
  round_scaled (z * 2 ^ emin_shift) 1 = z * 2 ^ emin_shift.
Proof.
  intros Hz. destruct (Z.eq_dec z 0) as [->|Hnz].
  { rewrite Z.mul_0_l. apply round_scaled_zero. lia. }
  unfold round_scaled, prec, emin_shift. rewrite Z.div_1_r, Z.mul_1_l.
  rewrite Z.log2_mul_pow2 by lia.
  assert (HL : 0 <= Z.log2 z <= 52).
  { split; [apply Z.log2_nonneg|].
    assert (Z.log2 z < 53) by (apply Z.log2_lt_pow2; lia). lia. }
  set (j := Z.max (1074 + Z.log2 z - (53 - 1)) 0).
  assert (Hj : 0 <= j <= 1074) by (unfold j; lia).
  assert (E : 2 ^ 1074 = 2 ^ (1074 - j) * 2 ^ j).
  { rewrite <- Z.pow_add_r by lia. f_equal. lia. }
  rewrite E at 1. rewrite Z.mul_assoc, rne_exact by (apply pow2_pos; lia).
  rewrite E. ring.
Qed.

Lemma Qred_inject_Z z : Qred (inject_Z z) = inject_Z z.
Proof.
  unfold Qred, inject_Z.
  pose proof (Z.ggcd_gcd z 1) as Hg.
  pose proof (Z.ggcd_correct_divisors z 1) as Hd.
  destruct (Z.ggcd z 1) as [g [aa bb]]. cbn [fst snd] in *.
  rewrite Z.gcd_1_r in Hg. subst g. destruct Hd as [Ha Hb].
  rewrite Z.mul_1_l in Ha, Hb. subst aa bb. reflexivity.
Qed.

Lemma round_inject_Z z :
  Z.abs z < 2 ^ 53 -> round (inject_Z z) = Fin (inject_Z z).
Proof.
  intros Hz. unfold round. cbn [Qnum Qden inject_Z].
  rewrite round_scaled_integer by lia.
  assert (HS : 0 < 2 ^ emin_shift) by (apply pow2_pos; unfold emin_shift; lia).
  unfold of_scaled.
  destruct (Z.leb_spec overflow_threshold (Z.abs z * 2 ^ emin_shift)) as [H|_].
  { exfalso. unfold overflow_threshold in H.
    rewrite Z.pow_add_r in H by (unfold emin_shift; lia).
    assert (2 ^ 53 < 2 ^ 1024) by (vm_compute; reflexivity). nia. }
  f_equal.
  rewrite (Qred_complete _ (inject_Z z)).
  - apply Qred_inject_Z.
  - unfold Qeq, inject_Z. cbn [Qnum Qden]. rewrite Z2Pos.id by lia.
    destruct (Z.ltb_spec z 0); [rewrite Z.abs_neq by lia | rewrite Z.abs_eq by lia];
      ring.
Qed.

Lemma to_float_int z :
  Z.abs z < 2 ^ 53 -> to_float (Int z) = Ok (Fin (inject_Z z)).
Proof.
  intros Hz. unfold to_float. rewrite round_inject_Z by exact Hz. reflexivity.
Qed.

(** ** Truncating a float that is less than one away from an integer *)

Lemma trunc_near z v :
  (Qabs (v - inject_Z z) < 1)%Q -> Z.abs (trunc v - z) <= 1.
Proof.
  destruct v as [n d]. unfold Qlt, Qabs, Qminus, Qplus, Qopp, inject_Z, trunc.
  cbn [Qnum Qden]. rewrite Z.mul_1_r, Z.mul_1_l, Pos.mul_1_r. intros H.
  pose proof (Z.quot_rem' n (Z.pos d)) as Hqr.
  pose proof (Z.rem_bound_abs n (Z.pos d) ltac:(lia)) as Hr.
  revert Hqr Hr. generalize (Z.quot n (Z.pos d)) (Z.rem n (Z.pos d)).
  intros t r Hqr Hr. nia.
Qed.

(** ** The conversion round trip *)

Local Open Scope Q_scope.

Definition err_after (e : Q) : Q := e + unit_roundoff + unit_roundoff * e.

(** Magnitudes between [2^-64] and [2^128] are well inside the normal
    range. *)
Lemma normal_range x :
  x == 0 \/ (1 # 2 ^ 64 <= Qabs x /\ Qabs x <= inject_Z (2 ^ 128)) ->
  x == 0 \/ (2 * tiny <= Qabs x /\ 2 * Qabs x <= huge).
Proof.
  intros [H|[Hlo Hhi]]; [left; exact H | right].
  assert (H1 : 2 * tiny <= 1 # 2 ^ 64) by (vm_compute; discriminate).
  assert (H2 : 2 * inject_Z (2 ^ 128) <= huge) by (vm_compute; discriminate).
  split.
  - eapply Qle_trans; [exact H1 | exact Hlo].
  - eapply Qle_trans; [|exact H2].
    apply Qmult_le_l; [reflexivity | exact Hhi].
Qed.

Lemma Qabs_inject_Z z : Qabs (inject_Z z) = inject_Z (Z.abs z).
Proof. reflexivity. Qed.

Lemma roundtrip_rounding (code M span : Z) :
  (0 < M < 2 ^ 31)%Z -> (- 2 ^ 31 <= code <= 2 ^ 31)%Z ->
  (0 < span < 2 ^ 53)%Z ->
  exists q1 mv q2 v,
    round (inject_Z code / inject_Z M) = Fin q1 /\
    round (q1 * inject_Z span) = Fin mv /\
    round (mv / inject_Z span) = Fin q2 /\
    round (q2 * inject_Z M) = Fin v /\
    Qabs (v - inject_Z code) < 1.
Proof.
  intros HM Hcode Hspan.
  set (c := inject_Z code). set (m := inject_Z M). set (r := inject_Z span).
  set (A := c / m).
  assert (Hm : 1 <= m /\ m <= inject_Z (2 ^ 31)).
  { unfold m. split; [change 1 with (inject_Z 1)|]; rewrite <- Zle_Qle; lia. }
  assert (Hr : 1 <= r /\ r <= inject_Z (2 ^ 53)).
  { unfold r. split; [change 1 with (inject_Z 1)|]; rewrite <- Zle_Qle; lia. }
  assert (Hm0 : ~ m == 0) by lra.
  assert (Hr0 : ~ r == 0) by lra.
  assert (HAm : A * m == c) by (unfold A; field; exact Hm0).
  assert (Habs_m : Qabs m == m) by (apply Qabs_pos; lra).
  assert (Habs_r : Qabs r == r) by (apply Qabs_pos; lra).
  assert (Hc_hi : Qabs c <= inject_Z (2 ^ 31)).
  { unfold c. rewrite Qabs_inject_Z, <- Zle_Qle. lia. }
  assert (HAabs : Qabs A * m == Qabs c).
  { rewrite <- HAm, Qabs_Qmult, Habs_m. reflexivity. }
  pose proof (Qabs_nonneg A) as HA0.
  assert (HA : A == 0 \/ (1 # 2 ^ 31 <= Qabs A /\ Qabs A <= inject_Z (2 ^ 31))).
  { destruct (Z.eq_dec code 0%Z) as [E|E].
    - left. unfold A, c. rewrite E. unfold Qdiv. apply Qmult_0_l.
    - right. assert (Hc_lo : 1 <= Qabs c).
      { unfold c. rewrite Qabs_inject_Z. change 1 with (inject_Z 1).
        rewrite <- Zle_Qle. lia. }
      change (inject_Z (2 ^ 31)) with (2147483648 # 1) in *.
      change (1 # 2 ^ 31) with (1 # 2147483648).
      split; nra. }
  (* first rounding: the quotient *)
  destruct (close_round 0 A A) as (q1 & E1 & C1);
    [lra | lra | | apply close_refl |].
  { apply normal_range. destruct HA as [HA|[Hlo Hhi]]; [left; exact HA|right].
    split; [eapply Qle_trans; [|exact Hlo] | eapply Qle_trans; [exact Hhi|]];
      vm_compute; discriminate. }
  (* second rounding: the product with the span *)
  assert (HAr : A * r == 0 \/
                (1 # 2 ^ 31 <= Qabs (A * r) /\
                 Qabs (A * r) <= inject_Z (2 ^ 84))).
  { rewrite Qabs_Qmult, Habs_r.
    destruct HA as [HA|[Hlo Hhi]]; [left; rewrite HA; apply Qmult_0_l|right].
    change (inject_Z (2 ^ 31)) with (2147483648 # 1) in *.
    change (inject_Z (2 ^ 53)) with (9007199254740992 # 1) in *.
    change (inject_Z (2 ^ 84)) with (19342813113834066795298816 # 1).
    change (1 # 2 ^ 31) with (1 # 2147483648) in *.
    split; nra. }
  destruct (close_round (err_after 0) (q1 * r) (A * r)) as (mv & E2 & C2);
    [vm_compute; discriminate | vm_compute; discriminate | |
     apply close_mul; exact C1 |].
  { apply normal_range. destruct HAr as [H|[Hlo Hhi]]; [left; exact H|right].
    split; [eapply Qle_trans; [|exact Hlo] | eapply Qle_trans; [exact Hhi|]];
      vm_compute; discriminate. }
  (* third rounding: the quotient by the span *)
  destruct (close_round (err_after (err_after 0)) (mv / r) A)
    as (q2 & E3 & C3);
    [vm_compute; discriminate | vm_compute; discriminate | | |].
  { apply normal_range. destruct HA as [HA|[Hlo Hhi]]; [left; exact HA|right].
    split; [eapply Qle_trans; [|exact Hlo] | eapply Qle_trans; [exact Hhi|]];
      vm_compute; discriminate. }
  { apply close_exact_r with (A * r * / r); [field; exact Hr0|].
    apply close_mul. exact C2. }
  (* fourth rounding: the product with the ADC ceiling *)
  destruct (close_round (err_after (err_after (err_after 0))) (q2 * m) c)
    as (v & E4 & C4);
    [vm_compute; discriminate | vm_compute; discriminate | | |].
  { apply normal_range. destruct (Z.eq_dec code 0%Z) as [E|E].
    - left. unfold c. rewrite E. reflexivity.
    - right. unfold c. rewrite Qabs_inject_Z. split.
      + apply Qle_trans with (inject_Z 1); [vm_compute; discriminate|].
        rewrite <- Zle_Qle. lia.
      + rewrite <- Zle_Qle. 
        assert (2 ^ 31 < 2 ^ 128)%Z by (vm_compute; reflexivity). lia. }
  { apply close_exact_r with (A * m); [exact HAm|].
    apply close_mul. exact C3. }
  exists q1, mv, q2, v. repeat split; try assumption.
  unfold close in C4.
  eapply Qle_lt_trans; [exact C4|].
  eapply Qle_lt_trans;
    [apply Qmult_le_l; [vm_compute; reflexivity | exact Hc_hi]|].
  vm_compute. reflexivity.
Qed.

Local Open Scope Z_scope.

Lemma fdiv_fin a z :
  0 < z -> fdiv (Fin a) (Fin (inject_Z z)) = Some (round (a / inject_Z z)).
Proof.
  intros Hz. unfold fdiv. cbn [Qnum inject_Z].
  destruct (Z.compare_spec z 0); try lia; reflexivity.
Qed.

(** C5: let the session's ADC ceiling be [M] (positive, as read from a
    C integer) and let [channel_range] select a positive span of the range
    table.  For every ADC code from the smallest 32-bit value (which
    bounds any floor the driver can report) up to the ceiling,
    [adc_to_mv] returns a finite float, [mv_to_adc] of that float returns
    an integer (its final [int(...)] truncating toward zero), and that
    integer is the original code or one of its two neighbours. *)
Theorem adc_mv_roundtrip K s code channel_range span M :
  max_adc_value s = Some M -> 0 < M < 2 ^ 31 ->
  - 2 ^ 31 <= code <= M ->
  list_getitem (RANGE_LIST K) channel_range = Ok span ->
  0 < span < 2 ^ 53 ->
  exists mv back,
    adc_to_mv K s (Int code) channel_range = Ok (Fin mv) /\
    mv_to_adc K s (Float (Fin mv)) channel_range = Ok back /\
    Z.abs (back - code) <= 1.
Proof.
  intros Hmax HM Hcode Hrange Hspan.
  destruct (roundtrip_rounding code M span)
    as (q1 & mv & q2 & v & E1 & E2 & E3 & E4 & Hv); [lia | lia | lia |].
  assert (H53 : 2 ^ 31 < 2 ^ 53) by (vm_compute; reflexivity).
  exists mv, (trunc v).
  assert (Emax : the_max_adc_value s = Ok (Int M)).
  { unfold the_max_adc_value. rewrite Hmax. reflexivity. }
  split; [|split].
  - unfold adc_to_mv. rewrite Hrange. cbn [rbind].
    rewrite (to_float_int span) by lia. cbn [rbind].
    rewrite (to_float_int code) by lia. cbn [rbind].
    rewrite Emax. cbn [rbind].
    rewrite (to_float_int M) by lia. cbn [rbind].
    unfold truediv. cbn [to_float rbind].
    rewrite fdiv_fin by lia. rewrite E1. cbn [rbind fmul]. rewrite E2.
    reflexivity.
  - unfold mv_to_adc. rewrite Hrange. cbn [rbind].
    unfold truediv. cbn [to_float rbind]. fold (to_float (Int span)).
    rewrite (to_float_int span) by lia. cbn [rbind].
    rewrite fdiv_fin by lia. rewrite E3. cbn [rbind].
    rewrite Emax. cbn [rbind]. unfold mul. cbn [to_float rbind].
    fold (to_float (Int M)). rewrite (to_float_int M) by lia. cbn [rbind fmul].
    rewrite E4. reflexivity.
  - apply trunc_near. exact Hv.
Qed.

Lemma adc_mv_roundtrip_witness :
  exists mv back,
    adc_to_mv Bench.K Bench.opened (Int (-32504)) 0 = Ok (Fin mv) /\
    mv_to_adc Bench.K Bench.opened (Float (Fin mv)) 0 = Ok back /\
    Z.abs (back - -32504) <= 1.
Proof.
  apply (adc_mv_roundtrip Bench.K Bench.opened (-32504) 0 10 32512);
    [reflexivity | lia | lia | reflexivity | lia].
Defined.

(** The tolerance is needed: on the simulated unit, at the 10 mV range,
    code -32504 comes back as -32503. *)
Example roundtrip_off_by_one :
  rbind (adc_to_mv Bench.K Bench.opened (Int (-32504)) 0) (fun mv =>
    mv_to_adc Bench.K Bench.opened (Float mv) 0)
  = Ok (-32503).
Proof. vm_compute. reflexivity. Qed.

(* ===================================================================== *)

(* ===================================================================== *)
(** * Further properties of the engine *)
(* ===================================================================== *)

(** ** Closing, and calls that go through the status handler *)

(** X1: [close_unit] never raises: whatever the driver answers to
    [CloseUnit], even a status the table does not know, it returns
    normally, prints nothing and leaves the session object as it was.
    Each call issues one [CloseUnit] on the handle; closing twice issues
    it twice. *)
Theorem close_unit_never_raises K dll pfx w :
  close_unit K dll pfx w = (Ok tt, closed pfx w) /\
  (close_unit K dll pfx ;;; close_unit K dll pfx) w
  = (Ok tt, closed pfx (closed pfx w)).
Proof.
  split; [apply close_unit_spec|].
  unfold bind. rewrite close_unit_spec. apply close_unit_spec.
Qed.

Lemma call_attr_fatal K dll pfx name args w msg :
  let c := Call (String.append pfx name) args in
  let st := ctype_value c_int32 (reply_status (dll (calls w) c)) in
  forallb (marshals K) args = true ->
  ERROR_STRING K !! st = Some msg ->
  st <> 0 -> st <> POWER_SOURCE_SUPPLY_NOT_CONNECTED K ->
  _call_attr_function K dll pfx name args w
  = (Raise (PicoSDKException msg), closed pfx (called dll c w)).
Proof.
  intros c st Hp Hm H0 Hw. unfold _call_attr_function, _get_attr_function.
  unfold bind at 1. rewrite native_spec by exact Hp. fold c. cbn [fst].
  fold st.
  unfold bind. rewrite (error_handler_known _ _ _ _ _ _ Hm).
  apply Z.eqb_neq in H0, Hw. rewrite H0, Hw. reflexivity.
Qed.

Lemma call_attr_unknown K dll pfx name args w :
  let c := Call (String.append pfx name) args in
  let st := ctype_value c_int32 (reply_status (dll (calls w) c)) in
  forallb (marshals K) args = true ->
  ERROR_STRING K !! st = None ->
  _call_attr_function K dll pfx name args w
  = (Raise (KeyError st), called dll c w).
Proof.
  intros c st Hp Hn. unfold _call_attr_function, _get_attr_function.
  unfold bind at 1. rewrite native_spec by exact Hp. fold c. cbn [fst].
  fold st.
  unfold bind. rewrite (error_handler_unknown _ _ _ _ _ Hn). reflexivity.
Qed.

(** X2: a call made through [_call_attr_function] either cannot be made
    or ends in one of three ways.  If ctypes cannot convert one of the
    arguments, [ArgumentError] is raised, the entry point is not reached
    and the world is as before.  Otherwise the call is issued, with the
    driver's stores taking effect, and its status decides: let through
    (zero or the warning: the status and the stored scalars are
    returned), fatal (the unit is closed on the handle as it is after
    the call and the error is raised with its message), or unknown to
    the table ([KeyError], and the unit is not closed). *)
Theorem call_attr_outcomes K dll pfx name args w :
  let c := Call (String.append pfx name) args in
  let st := ctype_value c_int32 (reply_status (dll (calls w) c)) in
  (forallb (marshals K) args = false ->
   _call_attr_function K dll pfx name args w = (Raise ArgumentError, w)) /\
  (forallb (marshals K) args = true ->
   (accepted K st ->
    exists w',
      _call_attr_function K dll pfx name args w
      = (Ok (st, snd (write_outs args (reply_outputs (dll (calls w) c))
                        (handle (self w)))), w') /\
      self w' = self (called dll c w) /\ heap w' = heap w /\
      calls w' = calls w ++ [c]) /\
   (forall msg,
      ERROR_STRING K !! st = Some msg ->
      st <> 0 -> st <> POWER_SOURCE_SUPPLY_NOT_CONNECTED K ->
      _call_attr_function K dll pfx name args w
      = (Raise (PicoSDKException msg), closed pfx (called dll c w))) /\
   (ERROR_STRING K !! st = None ->
    _call_attr_function K dll pfx name args w
    = (Raise (KeyError st), called dll c w))).
Proof.
  intros c st. split; [apply call_attr_refused|].
  intros Hp. split; [|split].
  - intros Ha. destruct (call_attr_accepted K dll pfx name args w Hp Ha)
      as (r & w' & E & Hs & Hh & Hc).
    exists w'. destruct (call_attr_ok K dll pfx name args w r w' E) as (Hr & _).
    rewrite E, Hr. repeat split; assumption.
  - intros msg. apply call_attr_fatal. exact Hp.
  - apply call_attr_unknown. exact Hp.
Qed.

Lemma call_attr_outcomes_witness :
  _call_attr_function Bench.K (Bench.constant_driver 5 []) "ps6000a"
    "SigGenFrequency" [AHandle 0; AInt 1000] new_world
  = (Raise (KeyError 5),
     called (Bench.constant_driver 5 [])
       (Call "ps6000aSigGenFrequency" [AHandle 0; AInt 1000]) new_world) /\
  _call_attr_function Bench.K Bench.healthy "ps6000a"
    "SigGenFrequency" [AHandle 0; AInt (2 ^ 64)] new_world
  = (Raise ArgumentError, new_world).
Proof.
  split.
  - apply (call_attr_outcomes Bench.K (Bench.constant_driver 5 []) "ps6000a"
             "SigGenFrequency" [AHandle 0; AInt 1000] new_world);
      reflexivity.
  - apply (call_attr_outcomes Bench.K Bench.healthy "ps6000a"
             "SigGenFrequency" [AHandle 0; AInt (2 ^ 64)] new_world).
    reflexivity.
Defined.


(** ** Opening a unit *)

(** The handle a call leaves in the session when the driver stores
    [outs] through [ctypes.byref(self.handle)], its first by-reference
    argument: the first value stored, read back as a [c_short]. *)
Definition stored_handle (outs : list Z) (h : Z) : Z :=
  match outs with
  | o :: _ => ctype_value c_int16 o
  | [] => h
  end.

(** X3: after a successful [open_unit] on a ps6000a session, exactly two
    native calls have been made: [OpenUnit], with the session handle by
    reference, the serial number and the requested resolution, and then
    [GetAdcLimits] on the handle the driver stored in that first call
    and for the requested resolution.  That handle is the session's
    handle from then on; the resolution is recorded, [min_adc_value] and
    [max_adc_value] are the two values the driver stored in the second
    call, read back as 32-bit signed integers, and the range table is
    untouched. *)
Theorem ps6000a_open_limits K dll serial_number res w w' :
  ps6000a.open_unit K dll serial_number res w = (Ok tt, w') ->
  let a := match serial_number with Some s => ABytes s | None => ANone end in
  let c_open := Call "ps6000aOpenUnit" [AByRefHandle; a; AInt res] in
  let h := stored_handle (reply_outputs (dll (calls w) c_open))
             (handle (self w)) in
  let c_lim := Call "ps6000aGetAdcLimits"
                 [AHandle h; AInt res; AOut c_int32; AOut c_int32] in
  let outs := reply_outputs (dll (calls w ++ [c_open]) c_lim) in
  calls w' = calls w ++ [c_open; c_lim] /\
  handle (self w') = h /\
  resolution (self w') = Some res /\
  min_adc_value (self w') = Some (ctype_value c_int32 (nth 0 outs 0)) /\
  max_adc_value (self w') = Some (ctype_value c_int32 (nth 1 outs 0)) /\
  range (self w') = range (self w).
Proof.
  unfold ps6000a.open_unit, _open_unit, _get_adc_limits.
  set (a := match serial_number with Some s => ABytes s | None => ANone end).
  unfold bind at 1. unfold bind at 1.
  destruct (_call_attr_function _ _ _ "OpenUnit" _ w) as [[r1|e] w1] eqn:E1;
    [|discriminate].
  apply call_attr_ok in E1. destruct E1 as (_ & Hs1 & _ & Hc1).
  unfold set_resolution at 1. unfold bind at 1. unfold get_self at 1.
  unfold set_self at 1. cbn iota beta.
  unfold bind at 1. unfold bind at 1. unfold get_self at 1. cbn iota beta.
  cbn [self resolution handle]. unfold bind at 1.
  destruct (_call_attr_function _ _ _ "GetAdcLimits" _ _)
    as [[r2|e] w2] eqn:E2; [|discriminate].
  apply call_attr_ok in E2. destruct E2 as (Hr2 & Hs2 & _ & Hc2).
  unfold ret at 1.
  unfold set_min_adc_value, set_max_adc_value, ret, bind, get_self, set_self.
  cbn iota beta. intros H. inversion H; subst w'. clear H.
  cbn [self calls handle max_adc_value min_adc_value resolution range] in *.
  assert (Hh : handle (self w1)
               = stored_handle
                   (reply_outputs
                      (dll (calls w)
                         (Call "ps6000aOpenUnit" [AByRefHandle; a; AInt res])))
                   (handle (self w))).
  { rewrite Hs1. unfold called, stored_handle. cbn [self handle].
    change (String.append ps6000a._unit_prefix_n "OpenUnit")
      with "ps6000aOpenUnit".
    unfold a. destruct serial_number;
      match goal with
      | |- context [write_outs _ ?o _] => destruct o
      end; reflexivity. }
  cbv zeta. rewrite <- Hh. rewrite Hs2.
  cbn [called self handle min_adc_value resolution range calls].
  rewrite write_outs_handle by reflexivity.
  rewrite Hc2, Hc1. cbn [calls]. rewrite <- app_assoc. cbn [app].
  change (String.append ps6000a._unit_prefix_n "GetAdcLimits")
    with "ps6000aGetAdcLimits" in *.
  change (String.append ps6000a._unit_prefix_n "OpenUnit")
    with "ps6000aOpenUnit" in *.
  rewrite Hr2. cbn [snd write_outs calls handle self fst]. rewrite Hc1.
  split; [reflexivity|]. split; [reflexivity|]. split; [reflexivity|].
  match goal with
  | |- context [reply_outputs ?x] => destruct (reply_outputs x) as [|o1 [|o2 os]]
  end; (split; [reflexivity|]); (split; [reflexivity|]); rewrite Hs1;
    reflexivity.
Qed.

Lemma ps6000a_open_limits_witness :
  exists w',
    ps6000a.open_unit Bench.K Bench.healthy None 1 new_world = (Ok tt, w') /\
    min_adc_value (self w') = Some (-32512) /\
    max_adc_value (self w') = Some 32512 /\
    resolution (self w') = Some 1.
Proof.
  exists (snd (ps6000a.open_unit Bench.K Bench.healthy None 1 new_world)).
  assert (E : ps6000a.open_unit Bench.K Bench.healthy None 1 new_world
              = (Ok tt, snd (ps6000a.open_unit Bench.K Bench.healthy None 1
                               new_world))) by (vm_compute; reflexivity).
  split; [exact E|].
  destruct (ps6000a_open_limits Bench.K Bench.healthy None 1 new_world _ E)
    as (_ & _ & Hres & _ & _ & _).
  split; [vm_compute; reflexivity|]. split; [vm_compute; reflexivity|].
  exact Hres.
Defined.

(** X4: when the driver answers [OpenUnit] with a fatal status, on either
    generation, [open_unit] raises the error with the status's message
    after issuing [CloseUnit] on the handle the driver has just stored;
    no limit query is made, and the resolution and the ADC limits of the
    session are left as they were.  (The resolution is one ctypes can
    pass, so that the call reaches the driver.) *)
Theorem open_unit_refused K dll serial_number res w msg :
  marshals K (AInt res) = true ->
  let a := match serial_number with Some s => ABytes s | None => ANone end in
  let c6 := Call "ps6000aOpenUnit" [AByRefHandle; a; AInt res] in
  let c5 := Call "ps5000aOpenUnit" [AByRefHandle; a; AInt res] in
  let fatal c :=
    let st := ctype_value c_int32 (reply_status (dll (calls w) c)) in
    ERROR_STRING K !! st = Some msg /\ st <> 0 /\
    st <> POWER_SOURCE_SUPPLY_NOT_CONNECTED K in
  (fatal c6 ->
   ps6000a.open_unit K dll serial_number res w
   = (Raise (PicoSDKException msg), closed "ps6000a" (called dll c6 w))) /\
  (fatal c5 ->
   ps5000a.open_unit K dll serial_number res w
   = (Raise (PicoSDKException msg), closed "ps5000a" (called dll c5 w))).
Proof.
  intros Hres a c6 c5 fatal.
  assert (Hp : forallb (marshals K) [AByRefHandle; a; AInt res] = true).
  { cbn [forallb]. rewrite Hres. unfold a.
    destruct serial_number; reflexivity. }
  split; intros (Hm & H0 & Hw).
  - unfold ps6000a.open_unit, _open_unit. fold a.
    unfold bind at 1. unfold bind at 1.
    rewrite (call_attr_fatal K dll ps6000a._unit_prefix_n "OpenUnit"
               [AByRefHandle; a; AInt res] w msg Hp Hm H0 Hw).
    reflexivity.
  - unfold ps5000a.open_unit, _open_unit. fold a.
    unfold bind at 1. unfold bind at 1.
    rewrite (call_attr_fatal K dll ps5000a._unit_prefix_n "OpenUnit"
               [AByRefHandle; a; AInt res] w msg Hp Hm H0 Hw).
    reflexivity.
Qed.

Lemma open_unit_refused_witness :
  ps5000a.open_unit Bench.K (Bench.constant_driver 3 [77]) None 1 new_world
  = (Raise (PicoSDKException "PICO_NOT_FOUND"),
     closed "ps5000a"
       (called (Bench.constant_driver 3 [77])
          (Call "ps5000aOpenUnit" [AByRefHandle; ANone; AInt 1]) new_world)).
Proof.
  apply (open_unit_refused Bench.K (Bench.constant_driver 3 [77]) None 1
           new_world "PICO_NOT_FOUND"); [reflexivity|].
  split; [reflexivity | split; vm_compute; discriminate].
Defined.


(** ** More on rounding: exact values, symmetry, bounds *)

Lemma round_scaled_multiple z d :
  0 <= z < 2 ^ 53 -> 0 < d ->
  round_scaled (z * d * 2 ^ emin_shift) d = z * 2 ^ emin_shift.
Proof.
  intros Hz Hd. destruct (Z.eq_dec z 0) as [->|Hnz].
  { rewrite !Z.mul_0_l. apply round_scaled_zero. lia. }
  unfold round_scaled, prec, emin_shift.
  replace (z * d * 2 ^ 1074) with (z * 2 ^ 1074 * d) by ring.
  rewrite Z.div_mul by lia.
  rewrite Z.log2_mul_pow2 by lia.
  assert (HL : 0 <= Z.log2 z <= 52).
  { split; [apply Z.log2_nonneg|].
    assert (Z.log2 z < 53) by (apply Z.log2_lt_pow2; lia). lia. }
  set (j := Z.max (1074 + Z.log2 z - (53 - 1)) 0).
  assert (Hj : 0 <= j <= 1074) by (unfold j; lia).
  assert (Hpj : 0 < 2 ^ j) by (apply pow2_pos; lia).
  assert (E : 2 ^ 1074 = 2 ^ (1074 - j) * 2 ^ j).
  { rewrite <- Z.pow_add_r by lia. f_equal. lia. }
  replace (z * 2 ^ 1074 * d) with (z * 2 ^ (1074 - j) * (d * 2 ^ j))
    by (rewrite E; ring).
  rewrite rne_exact by nia. rewrite E. ring.
Qed.

(** A rational equal to an integer of at most 53 bits rounds to it. *)
Lemma round_exact x z :
  (x == inject_Z z)%Q -> Z.abs z < 2 ^ 53 -> round x = Fin (inject_Z z).
Proof.
  destruct x as [n d]. unfold Qeq, inject_Z. cbn [Qnum Qden].
  rewrite Z.mul_1_r. intros -> Hz. unfold round. cbn [Qnum Qden].
  rewrite Z.abs_mul, (Z.abs_eq (Z.pos d)) by lia.
  rewrite round_scaled_multiple by lia.
  assert (HS : 0 < 2 ^ emin_shift) by (apply pow2_pos; unfold emin_shift; lia).
  unfold of_scaled.
  destruct (Z.leb_spec overflow_threshold (Z.abs z * 2 ^ emin_shift)) as [H|_].
  { exfalso. unfold overflow_threshold in H.
    rewrite Z.pow_add_r in H by (unfold emin_shift; lia).
    assert (2 ^ 53 < 2 ^ 1024) by (vm_compute; reflexivity). nia. }
  f_equal. rewrite (Qred_complete _ (inject_Z z)); [apply Qred_inject_Z|].
  unfold Qeq, inject_Z. cbn [Qnum Qden]. rewrite Z2Pos.id by lia.
  destruct (Z.ltb_spec (z * Z.pos d) 0);
    [rewrite Z.abs_neq by nia | rewrite Z.abs_eq by nia]; ring.
Qed.

(** Negation of a float. *)
Definition fopp (f : float) : float :=
  match f with
  | Fin q => Fin (- q)
  | Inf s => Inf (negb s)
  | NaN => NaN
  end.

(** Rounding is symmetric about zero. *)
Lemma round_opp_gen x y :
  Qnum y = - Qnum x -> Qden y = Qden x -> round y = fopp (round x).
Proof.
  intros Hn Hd. unfold round. rewrite Hn, Hd, Z.abs_opp.
  destruct (Z.eq_dec (Qnum x) 0) as [E|E].
  - rewrite E. cbn [Z.opp Z.abs Z.mul Z.ltb Z.compare].
    rewrite round_scaled_zero by lia. vm_compute. reflexivity.
  - set (M := round_scaled _ _). unfold of_scaled.
    destruct (overflow_threshold <=? M).
    + destruct (Z.ltb_spec (Qnum x) 0), (Z.ltb_spec (- Qnum x) 0);
        try lia; reflexivity.
    + cbn [fopp]. f_equal. rewrite <- Qred_opp. f_equal.
      unfold Qopp. cbn [Qnum Qden]. f_equal.
      destruct (Z.ltb_spec (Qnum x) 0), (Z.ltb_spec (- Qnum x) 0);
        try lia; ring.
Qed.

Lemma round_opp x : round (- x) = fopp (round x).
Proof. apply round_opp_gen; reflexivity. Qed.

Lemma trunc_opp q : trunc (- q) = - trunc q.
Proof.
  unfold trunc. cbn [Qnum Qden Qopp]. apply Z.quot_opp_l. lia.
Qed.

(** Rounding never crosses a 53-bit integer: a rational of magnitude at
    most [z] rounds to a finite float of magnitude at most [z]. *)
Lemma rne_le a b k : 0 < b -> a <= k * b -> rne a b <= k.
Proof.
  intros Hb H. destruct (Z.eq_dec a (k * b)) as [->|Hne].
  - rewrite rne_exact by lia. lia.
  - pose proof (rne_floor a b Hb).
    assert (a / b < k) by (apply Z.div_lt_upper_bound; lia). lia.
Qed.

Lemma round_scaled_le N d z :
  0 < d -> 0 <= N -> 0 <= z < 2 ^ 53 -> N <= z * 2 ^ emin_shift * d ->
  0 <= round_scaled N d <= z * 2 ^ emin_shift.
Proof.
  intros Hd HN Hz Hle.
  assert (HS : 0 < 2 ^ emin_shift) by (apply pow2_pos; unfold emin_shift; lia).
  unfold round_scaled, prec.
  set (j := Z.max (Z.log2 (N / d) - (53 - 1)) 0).
  assert (Hq : 0 <= N / d <= z * 2 ^ emin_shift).
  { split; [apply Z.div_pos; lia|].
    apply Z.div_le_upper_bound; [lia|]. nia. }
  assert (Hj : 0 <= j <= 1074).
  { split; [unfold j; lia|].
    destruct (Z.eq_dec z 0) as [->|Hnz].
    - assert (N / d = 0) by lia. unfold j. rewrite H. cbn. lia.
    - assert (Z.log2 (N / d) <= Z.log2 (z * 2 ^ emin_shift))
        by (apply Z.log2_le_mono; lia).
      unfold emin_shift in *. rewrite Z.log2_mul_pow2 in H by lia.
      assert (Z.log2 z < 53) by (apply Z.log2_lt_pow2; lia).
      unfold j. lia. }
  assert (Hpj : 0 < 2 ^ j) by (apply pow2_pos; lia).
  set (t := 2 ^ (1074 - j)).
  assert (Ht : 0 < t) by (apply pow2_pos; lia).
  assert (E : 2 ^ emin_shift = t * 2 ^ j).
  { unfold t, emin_shift. rewrite <- Z.pow_add_r by lia. f_equal. lia. }
  pose proof (rne_floor N (d * 2 ^ j) ltac:(nia)) as Hfl.
  assert (0 <= N / (d * 2 ^ j)) by (apply Z.div_pos; nia).
  assert (Hk : rne N (d * 2 ^ j) <= z * t).
  { apply rne_le; [nia|]. rewrite E in Hle. nia. }
  rewrite E. split; nia.
Qed.

Lemma round_abs_le x z :
  0 <= z < 2 ^ 53 -> (Qabs x <= inject_Z z)%Q ->
  exists y, round x = Fin y /\ (Qabs y <= inject_Z z)%Q.
Proof.
  destruct x as [n d]. intros Hz Hx.
  unfold Qle, Qabs, inject_Z in Hx. cbn [Qnum Qden] in Hx.
  rewrite Z.mul_1_r in Hx.
  unfold round. cbn [Qnum Qden].
  assert (HS : 0 < 2 ^ emin_shift) by (apply pow2_pos; unfold emin_shift; lia).
  pose proof (round_scaled_le (Z.abs n * 2 ^ emin_shift) (Z.pos d) z
                ltac:(lia) ltac:(nia) Hz ltac:(nia)) as HM.
  set (M := round_scaled _ _) in *.
  destruct (of_scaled_value (n <? 0) M) as (y & Ey & Hy).
  { split; [lia|]. unfold overflow_threshold.
    rewrite Z.pow_add_r by (unfold emin_shift; lia).
    assert (2 ^ 53 < 2 ^ 1024) by (vm_compute; reflexivity). nia. }
  exists y. split; [exact Ey|]. rewrite Hy.
  unfold Qle, Qabs, inject_Z. cbn [Qnum Qden].
  rewrite Z2Pos.id, Z.mul_1_r by lia.
  destruct (n <? 0); [rewrite Z.abs_opp|]; rewrite Z.abs_eq by lia; lia.
Qed.


(** ** Conversions: full scale, symmetry, bounds, failures *)

Lemma Qdiv_inject_self z : z <> 0 -> (inject_Z z / inject_Z z == inject_Z 1)%Q.
Proof.
  intros Hz. change (inject_Z 1) with 1%Q. field.
  unfold Qeq, inject_Z. cbn. lia.
Qed.

(** X5: at full scale the conversion to millivolts is exact: with a
    positive ADC ceiling [M] and a positive span, [adc_to_mv] maps the
    code [M] to the span itself, [-M] to minus the span and 0 to 0. *)
Theorem adc_to_mv_full_scale K s channel_range span M :
  max_adc_value s = Some M -> 0 < M < 2 ^ 53 ->
  list_getitem (RANGE_LIST K) channel_range = Ok span ->
  0 < span < 2 ^ 53 ->
  adc_to_mv K s (Int M) channel_range = Ok (Fin (inject_Z span)) /\
  adc_to_mv K s (Int (- M)) channel_range = Ok (Fin (inject_Z (- span))) /\
  adc_to_mv K s (Int 0) channel_range = Ok (Fin (inject_Z 0)).
Proof.
  intros Hmax HM Hrange Hspan.
  assert (Emax : the_max_adc_value s = Ok (Int M)).
  { unfold the_max_adc_value. rewrite Hmax. reflexivity. }
  assert (Hgen : forall c k,
             Z.abs c < 2 ^ 53 -> Z.abs k <= 1 -> c = k * M ->
             adc_to_mv K s (Int c) channel_range
             = Ok (Fin (inject_Z (k * span)))).
  { intros c k Hc Hk Ec. unfold adc_to_mv. rewrite Hrange. cbn [rbind].
    rewrite (to_float_int span) by lia. cbn [rbind].
    rewrite (to_float_int c) by lia. cbn [rbind].
    rewrite Emax. cbn [rbind].
    rewrite (to_float_int M) by lia. cbn [rbind].
    unfold truediv. cbn [to_float rbind].
    rewrite fdiv_fin by lia.
    rewrite (round_exact (inject_Z c / inject_Z M) k); [|
      rewrite Ec, inject_Z_mult; field; unfold Qeq, inject_Z; cbn; lia | lia].
    cbn [rbind fmul]. f_equal. apply round_exact; [|nia].
    rewrite inject_Z_mult. reflexivity. }
  split; [|split].
  - rewrite (Hgen M 1) by lia. rewrite Z.mul_1_l. reflexivity.
  - rewrite (Hgen (- M) (-1)) by lia.
    replace (-1 * span) with (- span) by lia. reflexivity.
  - rewrite (Hgen 0 0) by lia. reflexivity.
Qed.

Lemma adc_to_mv_full_scale_witness :
  adc_to_mv Bench.K Bench.opened (Int 32512) 6 = Ok (Fin (inject_Z 1000)) /\
  adc_to_mv Bench.K Bench.opened (Int (- 32512)) 6
  = Ok (Fin (inject_Z (- 1000))) /\
  adc_to_mv Bench.K Bench.opened (Int 0) 6 = Ok (Fin (inject_Z 0)).
Proof.
  apply (adc_to_mv_full_scale Bench.K Bench.opened 6 1000 32512);
    [reflexivity | lia | reflexivity | lia].
Defined.

(** X6: and back: [mv_to_adc] maps a threshold equal to the span, given
    as an int or as a float, to the ADC ceiling exactly, minus the span to
    minus the ceiling, and 0 to 0. *)
Theorem mv_to_adc_full_scale K s channel_range span M :
  max_adc_value s = Some M -> 0 < M < 2 ^ 53 ->
  list_getitem (RANGE_LIST K) channel_range = Ok span ->
  0 < span < 2 ^ 53 ->
  forall k, Z.abs k <= 1 ->
    mv_to_adc K s (Int (k * span)) channel_range = Ok (k * M) /\
    mv_to_adc K s (Float (Fin (inject_Z (k * span)))) channel_range
    = Ok (k * M).
Proof.
  intros Hmax HM Hrange Hspan k Hk.
  assert (Emax : the_max_adc_value s = Ok (Int M)).
  { unfold the_max_adc_value. rewrite Hmax. reflexivity. }
  assert (Eq : (inject_Z (k * span) / inject_Z span == inject_Z k)%Q).
  { rewrite inject_Z_mult. field. unfold Qeq, inject_Z. cbn. lia. }
  assert (Ep : round (inject_Z k * inject_Z M) = Fin (inject_Z (k * M))).
  { apply round_exact; [rewrite inject_Z_mult; reflexivity | nia]. }
  assert (Et : trunc (inject_Z (k * M)) = k * M).
  { unfold trunc, inject_Z. cbn [Qnum Qden]. apply Z.quot_1_r. }
  split.
  - unfold mv_to_adc. rewrite Hrange. cbn [rbind]. unfold truediv.
    destruct (Z.eqb_spec span 0); [lia|].
    rewrite (round_exact _ k Eq) by lia. cbn [rbind].
    rewrite Emax. cbn [rbind]. unfold mul. cbn [to_float rbind].
    fold (to_float (Int M)). rewrite (to_float_int M) by lia.
    cbn [rbind fmul]. rewrite Ep. cbn [int]. rewrite Et. reflexivity.
  - unfold mv_to_adc. rewrite Hrange. cbn [rbind]. unfold truediv.
    cbn [to_float rbind]. fold (to_float (Int span)).
    rewrite (to_float_int span) by lia. cbn [rbind].
    rewrite fdiv_fin by lia. rewrite (round_exact _ k Eq) by lia.
    cbn [rbind]. rewrite Emax. cbn [rbind]. unfold mul. cbn [to_float rbind].
    fold (to_float (Int M)). rewrite (to_float_int M) by lia.
    cbn [rbind fmul]. rewrite Ep. cbn [int]. rewrite Et. reflexivity.
Qed.

Lemma mv_to_adc_full_scale_witness :
  mv_to_adc Bench.K Bench.opened (Int (-1 * 1000)) 6 = Ok (-1 * 32512) /\
  mv_to_adc Bench.K Bench.opened (Float (Fin (inject_Z (-1 * 1000)))) 6
  = Ok (-1 * 32512).
Proof.
  apply (mv_to_adc_full_scale Bench.K Bench.opened 6 1000 32512);
    [reflexivity | lia | reflexivity | lia | lia].
Defined.


(** Negation of a number, and the image of a result. *)
Definition nopp (x : num) : num :=
  match x with
  | Int z => Int (- z)
  | Float f => Float (fopp f)
  end.

Definition rmap {A B} (f : A -> B) (r : result A) : result B :=
  match r with
  | Ok a => Ok (f a)
  | Raise e => Raise e
  end.

Lemma to_float_nopp x : to_float (nopp x) = rmap fopp (to_float x).
Proof.
  destruct x as [z|f]; [|reflexivity]. cbn [nopp to_float].
  rewrite (round_opp_gen (inject_Z z) (inject_Z (- z))) by reflexivity.
  destruct (round (inject_Z z)); reflexivity.
Qed.

Lemma fmul_fopp_l a b : fmul (fopp a) b = fopp (fmul a b).
Proof.
  destruct a as [p|s|], b as [q|t|]; cbn [fopp fmul]; try reflexivity.
  - apply round_opp_gen; cbn [Qnum Qden Qmult Qopp]; [ring | reflexivity].
  - destruct (Qnum p ?= 0) eqn:E; cbn [Qopp Qnum].
    + apply Z.compare_eq in E. rewrite E. reflexivity.
    + rewrite Z.compare_lt_iff in E.
      destruct (Z.compare_spec (- Qnum p) 0); try lia.
      destruct t; reflexivity.
    + rewrite Z.compare_gt_iff in E.
      destruct (Z.compare_spec (- Qnum p) 0); try lia. reflexivity.
  - destruct (Qnum q ?= 0); reflexivity.
  - destruct s, t; reflexivity.
Qed.

Lemma fdiv_fopp_l a b :
  fdiv (fopp a) b = option_map fopp (fdiv a b).
Proof.
  destruct b as [q|t|].
  - unfold fdiv. destruct (Qnum q ?= 0) eqn:E.
    + destruct a; reflexivity.
    + destruct a as [p|s|]; cbn [fopp option_map];
        [f_equal; apply round_opp_gen; cbn [Qnum Qden Qmult Qdiv Qopp];
         [ring | reflexivity] | reflexivity | reflexivity].
    + destruct a as [p|s|]; cbn [fopp option_map];
        [f_equal; apply round_opp_gen; cbn [Qnum Qden Qmult Qdiv Qopp];
         [ring | reflexivity] | reflexivity | reflexivity].
  - destruct a; reflexivity.
  - destruct a; reflexivity.
Qed.

Lemma truediv_nopp x y : truediv (nopp x) y = rmap fopp (truediv x y).
Proof.
  destruct x as [a|f], y as [b|g]; cbn [nopp].
  - unfold truediv. destruct (b =? 0); [reflexivity|].
    rewrite (round_opp_gen (inject_Z a / inject_Z b)
               (inject_Z (- a) / inject_Z b));
      [| cbn [Qnum Qden Qmult Qdiv inject_Z]; ring | reflexivity].
    destruct (round (inject_Z a / inject_Z b)); reflexivity.
  - unfold truediv. fold (nopp (Int a)). rewrite to_float_nopp.
    destruct (to_float (Int a)) as [f|e]; [|reflexivity].
    cbn [rmap rbind to_float]. rewrite fdiv_fopp_l.
    destruct (fdiv f g); reflexivity.
  - unfold truediv. cbn [to_float rbind].
    destruct (match round (inject_Z b) with Inf _ => _ | f0 => Ok f0 end)
      as [g|e]; [|reflexivity].
    cbn [rbind]. rewrite fdiv_fopp_l. destruct (fdiv f g); reflexivity.
  - unfold truediv. cbn [to_float rbind]. rewrite fdiv_fopp_l.
    destruct (fdiv f g); reflexivity.
Qed.

Lemma mul_nopp x y : mul (nopp x) y = rmap nopp (mul x y).
Proof.
  destruct x as [a|f], y as [b|g]; cbn [nopp].
  - cbn [mul rmap nopp]. do 2 f_equal. ring.
  - unfold mul. fold (nopp (Int a)). rewrite to_float_nopp.
    destruct (to_float (Int a)) as [f|e]; [|reflexivity].
    cbn [rmap rbind to_float nopp]. rewrite fmul_fopp_l. reflexivity.
  - unfold mul. cbn [to_float rbind].
    destruct (match round (inject_Z b) with Inf _ => _ | f0 => Ok f0 end)
      as [g|e]; [|reflexivity].
    cbn [rbind rmap nopp]. rewrite fmul_fopp_l. reflexivity.
  - unfold mul. cbn [to_float rbind rmap nopp]. rewrite fmul_fopp_l.
    reflexivity.
Qed.

Lemma int_nopp x : int (nopp x) = rmap Z.opp (int x).
Proof.
  destruct x as [z|[q|s|]]; cbn [nopp fopp int rmap]; try reflexivity.
  rewrite trunc_opp. reflexivity.
Qed.

(** X7: both conversions are symmetric about zero, in every state of the
    session and for every argument: negating the code negates the
    millivolt value, negating the threshold negates the ADC code (the
    truncation being toward zero), and a conversion that fails on an
    argument fails in the same way on its opposite. *)
Theorem conversions_symmetric K s x channel_range :
  adc_to_mv K s (nopp x) channel_range
  = rmap fopp (adc_to_mv K s x channel_range) /\
  mv_to_adc K s (nopp x) channel_range
  = rmap Z.opp (mv_to_adc K s x channel_range).
Proof.
  split.
  - unfold adc_to_mv.
    destruct (list_getitem (RANGE_LIST K) channel_range) as [r|e];
      [|reflexivity]. cbn [rbind].
    destruct (to_float (Int r)) as [crm|e]; [|reflexivity]. cbn [rbind].
    rewrite to_float_nopp.
    destruct (to_float x) as [a|e]; [|reflexivity]. cbn [rbind rmap].
    destruct (the_max_adc_value s) as [m|e]; [|reflexivity]. cbn [rbind].
    destruct (to_float m) as [m'|e]; [|reflexivity]. cbn [rbind].
    change (Float (fopp a)) with (nopp (Float a)). rewrite truediv_nopp.
    destruct (truediv (Float a) (Float m')) as [q|e]; [|reflexivity].
    cbn [rbind rmap]. rewrite fmul_fopp_l. reflexivity.
  - unfold mv_to_adc.
    destruct (list_getitem (RANGE_LIST K) channel_range) as [r|e];
      [|reflexivity]. cbn [rbind].
    rewrite truediv_nopp.
    destruct (truediv x (Int r)) as [q|e]; [|reflexivity]. cbn [rbind rmap].
    destruct (the_max_adc_value s) as [m|e]; [|reflexivity]. cbn [rbind].
    change (Float (fopp q)) with (nopp (Float q)). rewrite mul_nopp.
    destruct (mul (Float q) m) as [p|e]; [|reflexivity]. cbn [rbind rmap].
    apply int_nopp.
Qed.


Lemma trunc_abs_le p z :
  (Qabs p <= inject_Z z)%Q -> Z.abs (trunc p) <= z.
Proof.
  destruct p as [n d]. unfold Qle, Qabs, inject_Z, trunc. cbn [Qnum Qden].
  rewrite Z.mul_1_r. intros H.
  rewrite <- (Z.abs_eq (Z.pos d)) at 1 by lia.
  rewrite <- Z.quot_abs by lia. rewrite (Z.abs_eq (Z.pos d)) by lia.
  apply Z.quot_le_upper_bound; lia.
Qed.

Lemma Qabs_div_le x c :
  (0 < c)%Q -> (Qabs x <= c)%Q -> (Qabs (x / c) <= inject_Z 1)%Q.
Proof.
  intros Hc Hx. unfold Qdiv. rewrite Qabs_Qmult.
  rewrite (Qabs_pos (/ c)) by (apply Qlt_le_weak, Qinv_lt_0_compat, Hc).
  change (inject_Z 1) with 1%Q. apply Qle_shift_div_r; [exact Hc|].
  rewrite Qmult_1_l. exact Hx.
Qed.

(** The magnitude of a number is at most the integer [z]. *)
Definition magnitude_le (x : num) (z : Z) : Prop :=
  match x with
  | Int a => Z.abs a <= z
  | Float (Fin q) => (Qabs q <= inject_Z z)%Q
  | Float _ => False
  end.

(** X8: a threshold within the span converts to a code within the ADC
    ceiling: with a ceiling [M] and a positive span, every threshold (int
    or float) of magnitude at most the span is converted by [mv_to_adc]
    without error to a code of magnitude at most [M]. *)
Theorem mv_to_adc_within_ceiling K s mv channel_range span M :
  max_adc_value s = Some M -> 0 <= M < 2 ^ 53 ->
  list_getitem (RANGE_LIST K) channel_range = Ok span ->
  0 < span < 2 ^ 53 ->
  magnitude_le mv span ->
  exists code,
    mv_to_adc K s mv channel_range = Ok code /\ Z.abs code <= M.
Proof.
  intros Hmax HM Hrange Hspan Hmv.
  assert (Emax : the_max_adc_value s = Ok (Int M)).
  { unfold the_max_adc_value. rewrite Hmax. reflexivity. }
  assert (Hc : (0 < inject_Z span)%Q).
  { change 0%Q with (inject_Z 0). rewrite <- Zlt_Qlt. lia. }
  assert (Hq : exists y, truediv mv (Int span) = Ok (Fin y) /\
                         (Qabs y <= inject_Z 1)%Q).
  { destruct mv as [a|[q|?|]]; cbn [magnitude_le] in Hmv; try contradiction.
    - unfold truediv. destruct (Z.eqb_spec span 0); [lia|].
      destruct (round_abs_le (inject_Z a / inject_Z span) 1) as (y & Ey & Hy);
        [lia | |].
      + apply Qabs_div_le; [exact Hc|].
        rewrite Qabs_inject_Z, <- Zle_Qle. exact Hmv.
      + exists y. rewrite Ey. split; [reflexivity | exact Hy].
    - unfold truediv. cbn [to_float rbind]. fold (to_float (Int span)).
      rewrite (to_float_int span) by lia. cbn [rbind].
      rewrite fdiv_fin by lia.
      destruct (round_abs_le (q / inject_Z span) 1) as (y & Ey & Hy);
        [lia | apply Qabs_div_le; assumption |].
      exists y. rewrite Ey. split; [reflexivity | exact Hy]. }
  destruct Hq as (y & Ey & Hy).
  destruct (round_abs_le (y * inject_Z M) M) as (p & Ep & Hp); [lia | |].
  { rewrite Qabs_Qmult, Qabs_inject_Z, (Z.abs_eq M) by lia.
    rewrite <- (Qmult_1_l (inject_Z M)) at 2.
    apply Qmult_le_compat_r; [exact Hy|].
    change 0%Q with (inject_Z 0). rewrite <- Zle_Qle. lia. }
  exists (trunc p). split.
  - unfold mv_to_adc. rewrite Hrange. cbn [rbind]. rewrite Ey. cbn [rbind].
    rewrite Emax. cbn [rbind]. unfold mul. cbn [to_float rbind].
    fold (to_float (Int M)). rewrite (to_float_int M) by lia.
    cbn [rbind fmul]. rewrite Ep. reflexivity.
  - apply trunc_abs_le. exact Hp.
Qed.

Lemma mv_to_adc_within_ceiling_witness :
  exists code,
    mv_to_adc Bench.K Bench.opened (Int 500) 6 = Ok code /\
    Z.abs code <= 32512.
Proof.
  apply (mv_to_adc_within_ceiling Bench.K Bench.opened (Int 500) 6 1000 32512);
    [reflexivity | lia | reflexivity | lia | simpl; lia].
Defined.

Lemma list_getitem_out_of_range {A} (l : list A) i :
  i < - Z.of_nat (length l) \/ Z.of_nat (length l) <= i ->
  list_getitem l i = Raise IndexError.
Proof.
  intros H. unfold list_getitem.
  destruct (Z.ltb_spec i 0);
    match goal with
    | |- context [(0 <=? ?j) && (?j <? ?n)] =>
        destruct (Z.leb_spec 0 j); destruct (Z.ltb_spec j n)
    end; try reflexivity; lia.
Qed.

(** X9: how the conversions fail.  On a range index outside the table
    (at or beyond its length, or below minus its length) both raise
    [IndexError], whatever the session and the argument.  On a session whose
    ADC ceiling was never read ([max_adc_value] still [None]) both raise
    [TypeError].  With a ceiling of zero [adc_to_mv] raises
    [ZeroDivisionError], while [mv_to_adc] returns 0 for a threshold
    within the span. *)
Theorem conversion_failures K s x channel_range :
  (channel_range < - Z.of_nat (length (RANGE_LIST K)) \/
   Z.of_nat (length (RANGE_LIST K)) <= channel_range ->
   adc_to_mv K s x channel_range = Raise IndexError /\
   mv_to_adc K s x channel_range = Raise IndexError) /\
  (forall span a,
     list_getitem (RANGE_LIST K) channel_range = Ok span ->
     0 < span < 2 ^ 53 -> x = Int a -> Z.abs a < 2 ^ 53 ->
     (max_adc_value s = None ->
      adc_to_mv K s x channel_range = Raise TypeError /\
      (Z.abs a <= span -> mv_to_adc K s x channel_range = Raise TypeError)) /\
     (max_adc_value s = Some 0 ->
      adc_to_mv K s x channel_range = Raise ZeroDivisionError /\
      (Z.abs a <= span -> mv_to_adc K s x channel_range = Ok 0))).
Proof.
  split.
  - intros H. apply list_getitem_out_of_range in H.
    unfold adc_to_mv, mv_to_adc. rewrite H. split; reflexivity.
  - intros span a Hrange Hspan -> Ha.
    assert (Hc : (0 < inject_Z span)%Q).
    { change 0%Q with (inject_Z 0). rewrite <- Zlt_Qlt. lia. }
    assert (Hq : Z.abs a <= span ->
                 exists y, truediv (Int a) (Int span) = Ok (Fin y) /\
                           (Qabs y <= inject_Z 1)%Q).
    { intros Hle. unfold truediv. destruct (Z.eqb_spec span 0); [lia|].
      destruct (round_abs_le (inject_Z a / inject_Z span) 1) as (y & Ey & Hy);
        [lia | |].
      + apply Qabs_div_le; [exact Hc|].
        rewrite Qabs_inject_Z, <- Zle_Qle. exact Hle.
      + exists y. rewrite Ey. split; [reflexivity | exact Hy]. }
    split; intros Hmax.
    + split.
      * unfold adc_to_mv. rewrite Hrange. cbn [rbind].
        rewrite (to_float_int span) by lia. cbn [rbind].
        rewrite (to_float_int a) by lia. cbn [rbind].
        unfold the_max_adc_value. rewrite Hmax. reflexivity.
      * intros Hle. destruct (Hq Hle) as (y & Ey & _).
        unfold mv_to_adc. rewrite Hrange. cbn [rbind]. rewrite Ey.
        cbn [rbind]. unfold the_max_adc_value. rewrite Hmax. reflexivity.
    + split.
      * unfold adc_to_mv. rewrite Hrange. cbn [rbind].
        rewrite (to_float_int span) by lia. cbn [rbind].
        rewrite (to_float_int a) by lia. cbn [rbind].
        unfold the_max_adc_value. rewrite Hmax. cbn [rbind].
        rewrite (to_float_int 0) by (vm_compute; reflexivity). reflexivity.
      * intros Hle. destruct (Hq Hle) as (y & Ey & _).
        unfold mv_to_adc. rewrite Hrange. cbn [rbind]. rewrite Ey.
        cbn [rbind]. unfold the_max_adc_value. rewrite Hmax. cbn [rbind].
        unfold mul. cbn [to_float rbind]. fold (to_float (Int 0)).
        rewrite (to_float_int 0) by (vm_compute; reflexivity).
        cbn [rbind fmul]. rewrite round_zero.
        -- reflexivity.
        -- cbn [Qnum Qmult inject_Z]. ring.
Qed.

Lemma conversion_failures_witness :
  adc_to_mv Bench.K __init__ (Int 100) 6 = Raise TypeError /\
  mv_to_adc Bench.K __init__ (Int 100) 6 = Raise TypeError.
Proof.
  destruct (conversion_failures Bench.K __init__ (Int 100) 6) as [_ H].
  destruct (H 1000 100) as [[H1 H2] _];
    [reflexivity | lia | reflexivity | lia | reflexivity |].
  split; [exact H1 | apply H2; lia].
Defined.


(** ** The pre/post-trigger split: what reaches the driver *)

(** X10: with a non-negative sample count and a product below [2^53],
    a percentage from 0 to 100 gives two shares between 0 and the sample
    count.  The percentage is not validated: above 100 the pre-trigger
    share is at least the sample count and the post-trigger share is zero
    or negative, and [run_block_capture] issues [RunBlock] with these
    values all the same, as long as ctypes can convert the arguments of
    the call; when it cannot, [ArgumentError] is raised and no call is
    made. *)
Theorem block_split_shares K dll pfx timebase samples pct segment w :
  0 <= samples -> 0 <= pct -> samples * pct < 2 ^ 53 ->
  exists pre post,
    pre_post_samples samples pct = Ok (pre, post) /\
    (pct <= 100 -> 0 <= pre <= samples /\ 0 <= post <= samples) /\
    (100 < pct -> samples <= pre /\ post <= 0) /\
    let args := [AHandle (handle (self w)); AInt pre; AInt post;
                 AInt timebase; AOut c_int32; AInt segment; ANone; ANone] in
    let run := run_block_capture K dll pfx timebase samples pct segment w in
    (forallb (marshals K) args = true ->
     exists rest,
       calls (snd run)
       = calls w ++ Call (String.append pfx "RunBlock") args :: rest) /\
    (forallb (marshals K) args = false -> run = (Raise ArgumentError, w)).
Proof.
  intros Hs Hp Hlt.
  destruct (truediv_100_trunc (samples * pct)) as (q & Eq & Hq); [nia|].
  set (pre := samples * pct / 100).
  assert (Esplit : pre_post_samples samples pct = Ok (pre, samples - pre)).
  { unfold pre_post_samples. cbn [mul rbind]. rewrite Eq.
    cbn [rbind int]. rewrite Hq. reflexivity. }
  exists pre, (samples - pre). split; [exact Esplit|].
  split; [|split].
  - intros Hle.
    assert (0 <= pre) by (apply Z.div_pos; nia).
    assert (pre <= samples)
      by (apply Z.div_le_upper_bound; nia).
    lia.
  - intros Hgt.
    assert (samples <= pre) by (apply Z.div_le_lower_bound; nia).
    lia.
  - cbv zeta. unfold run_block_capture. unfold bind, lift, get_self.
    rewrite Esplit. cbn [fst snd]. split; intros Hm.
    + destruct (call_attr_calls K dll pfx "RunBlock" _ w Hm) as [rest Hc].
      destruct (_call_attr_function K dll pfx "RunBlock" _ w)
        as [[r|e] w1]; cbn [snd] in Hc; unfold ret; cbn [snd];
        exists rest; exact Hc.
    + rewrite (call_attr_refused K dll pfx "RunBlock" _ w Hm).
      reflexivity.
Qed.

Lemma block_split_shares_witness :
  exists pre post,
    pre_post_samples 10 250 = Ok (pre, post) /\ 10 <= pre /\ post <= 0.
Proof.
  destruct (block_split_shares Bench.K Bench.healthy "ps6000a" 3 10 250 0
              new_world) as (pre & post & E & _ & H & _); [lia | lia | lia |].
  exists pre, post. split; [exact E | apply H; lia].
Defined.

(** Two runs on the simulated unit: at 250 percent of 10 samples
    [RunBlock] is called with 25 and -15; with a timebase of [2**64] the
    call is not made. *)
Example run_block_unvalidated :
  calls (snd (run_block_capture Bench.K Bench.healthy "ps6000a" 3 10 250 0
                new_world))
  = [Call "ps6000aRunBlock"
       [AHandle 0; AInt 25; AInt (-15); AInt 3; AOut c_int32; AInt 0;
        ANone; ANone]] /\
  run_block_capture Bench.K Bench.healthy "ps6000a" (2 ^ 64) 10 50 0
    new_world
  = (Raise ArgumentError, new_world).
Proof. vm_compute. split; reflexivity. Qed.

(** ** Allocating buffers for the channels of the range table *)

Lemma dict_set_fresh {V} (d : dict V) k v :
  ~ In k (dict_keys d) -> dict_set d k v = d ++ [(k, v)].
Proof.
  induction d as [|[k0 v0] d IH]; intros H; [reflexivity|].
  simpl in *. destruct (Z.eqb_spec k0 k); [tauto|].
  rewrite IH by tauto. reflexivity.
Qed.

Lemma dict_keys_app {V} (d1 d2 : dict V) :
  dict_keys (d1 ++ d2) = dict_keys d1 ++ dict_keys d2.
Proof. apply map_app. Qed.

(** Both generations run the same loop,
    [for channel in self.range: d[channel] = set_buffer(channel)];
    it is analysed once, for any [set_buffer] that, on the channels it
    can be called for, allocates the object [buf] and issues one native
    call. *)
Section AllocationLoop.
Variable set_buffer : Z -> M loc.
Variable buf : obj.
Variable issued : Z -> Z -> loc -> native_call.
Variable callable : Z -> Prop.
Hypothesis set_buffer_spec : forall channel w,
  callable channel ->
  exists w',
    set_buffer channel w = (Ok (length (heap w)), w') /\
    self w' = self w /\ heap w' = heap w ++ [buf] /\
    calls w' = calls w ++ [issued (handle (self w)) channel (length (heap w))].



End AllocationLoop.



Section Allocation.
Variable K : constants.
Variable dll : driver.
Hypothesis dll_accepts :
  forall h c, accepted K (ctype_value c_int32 (reply_status (dll h c))).



End Allocation.



(** A session with channels 0 and 2 configured, in that order. *)
Definition two_channels : world :=
  {| self := {| handle := 16384; range := [(0, 6); (2, 7)];
                resolution := Some 1; max_adc_value := Some 32512;
                min_adc_value := Some (-32512) |};
     heap := []; calls := []; stdout := [] |}.





(** X13: an unlisted datatype is only noticed when there is a channel to
    allocate for.  With an empty range table
    [ps6000a.set_data_buffer_for_enabled_channels] returns an empty
    mapping and makes no native call; with a non-empty one it raises
    [PicoSDKException] for the first channel, before any native call. *)
Theorem ps6000a_buffers_unlisted_datatype K dll samples segment datatype
  ratio_mode action w :
  datatype <> DATA_TYPE_INT8_T K -> datatype <> DATA_TYPE_INT16_T K ->
  datatype <> DATA_TYPE_INT32_T K -> datatype <> DATA_TYPE_INT64_T K ->
  datatype <> DATA_TYPE_UINT32_T K ->
  let r := ps6000a.set_data_buffer_for_enabled_channels K dll samples segment
             datatype ratio_mode action w in
  calls (snd r) = calls w /\
  heap (snd r) = heap w ++ [PyDict []] /\
  (range (self w) = [] -> fst r = Ok (length (heap w))) /\
  (range (self w) <> [] ->
   fst r = Raise (PicoSDKException "Invalid datatype selected for buffer")).
Proof.
  intros H8 H16 H32 H64 HU.
  assert (E : forall channel w0,
             _set_data_buffer_ps6000a K dll ps6000a._unit_prefix_n channel
               samples segment datatype ratio_mode action w0
             = (Raise (PicoSDKException "Invalid datatype selected for buffer"),
                w0)).
  { intros channel w0. unfold _set_data_buffer_ps6000a, buffer_ctype.
    apply Z.eqb_neq in H8, H16, H32, H64, HU.
    rewrite H8, H16, H32, H64, HU. reflexivity. }
  intros r.
  set (w0 := {| self := self w; heap := heap w ++ [PyDict []];
                calls := calls w; stdout := stdout w |}).
  assert (Hr : r = match range (self w) with
                   | [] => (Ok (length (heap w)), w0)
                   | _ :: _ =>
                       (Raise (PicoSDKException
                                 "Invalid datatype selected for buffer"), w0)
                   end).
  { unfold r, ps6000a.set_data_buffer_for_enabled_channels.
    unfold bind at 1. unfold alloc at 1.
    unfold bind at 1. unfold get_self at 1. cbn iota beta. fold w0.
    change (self w0) with (self w).
    destruct (range (self w)) as [|[k v] d]; [reflexivity|].
    cbn [dict_keys map fst for_each]. unfold bind. rewrite E. reflexivity. }
  rewrite Hr. destruct (range (self w)) as [|[k v] d]; cbn [fst snd].
  - split; [reflexivity|]. split; [reflexivity|].
    split; [reflexivity | intros H; contradiction].
  - split; [reflexivity|]. split; [reflexivity|].
    split; [intros H; discriminate | reflexivity].
Qed.

Lemma ps6000a_buffers_unlisted_datatype_witness :
  fst (ps6000a.set_data_buffer_for_enabled_channels Bench.K Bench.healthy
         4 0 99 0 3 two_channels)
  = Raise (PicoSDKException "Invalid datatype selected for buffer") /\
  fst (ps6000a.set_data_buffer_for_enabled_channels Bench.K Bench.healthy
         4 0 99 0 3 new_world)
  = Ok 0%nat.
Proof.
  split.
  - apply (ps6000a_buffers_unlisted_datatype Bench.K Bench.healthy 4 0 99 0 3
             two_channels); discriminate.
  - apply (ps6000a_buffers_unlisted_datatype Bench.K Bench.healthy 4 0 99 0 3
             new_world); try discriminate; reflexivity.
Defined.


(** ** The readiness poll *)

Section Polling.
Variable K : constants.
Variable dll : driver.
Variable _unit_prefix_n : string.

(** [is_ready]: the loop [while True: ... if ready.value != 0: break],
    run for at most [fuel] polls; [None] means that the loop is still
    running after that many polls. *)
Fixpoint is_ready (fuel : nat) : M (option unit) :=
  match fuel with
  | O => ret None
  | S fuel' =>
      s <- get_self ;;
      r <- native K dll (String.append _unit_prefix_n "IsReady")
             [AHandle (handle s); AOut c_int16] ;;
      _error_handler K dll _unit_prefix_n (fst r) ;;;
      if negb (nth 0 (snd r) 0 =? 0) then ret (Some tt)
      else is_ready fuel'
  end.

(** The poll issued on handle [h], the status the driver answers to the
    poll made after [k] earlier ones, and the flag it stores. *)
Definition poll (h : Z) : native_call :=
  Call (String.append _unit_prefix_n "IsReady") [AHandle h; AOut c_int16].

Definition poll_status (w : world) (k : nat) : Z :=
  ctype_value c_int32
    (reply_status (dll (calls w ++ repeat (poll (handle (self w))) k)
                     (poll (handle (self w))))).

Definition poll_flag (w : world) (k : nat) : Z :=
  ctype_value c_int16
    (nth 0 (reply_outputs (dll (calls w ++ repeat (poll (handle (self w))) k)
                             (poll (handle (self w))))) 0).

Lemma poll_outs outs h :
  nth 0 (snd (write_outs [AHandle h; AOut c_int16] outs h)) 0
  = ctype_value c_int16 (nth 0 outs 0).
Proof. destruct outs; reflexivity. Qed.

(** The world after one poll. *)
Definition after_poll (w : world) : world :=
  snd (_error_handler K dll _unit_prefix_n (poll_status w 0)
         (called dll (poll (handle (self w))) w)).

Lemma is_ready_step fuel w :
  is_ready (S fuel) w
  = match _error_handler K dll _unit_prefix_n (poll_status w 0)
            (called dll (poll (handle (self w))) w) with
    | (Ok _, w1) =>
        if negb (poll_flag w 0 =? 0) then (Ok (Some tt), w1)
        else is_ready fuel w1
    | (Raise e, w1) => (Raise e, w1)
    end.
Proof.
  unfold poll_status, poll_flag. cbn [repeat]. rewrite app_nil_r.
  cbn [is_ready].
  unfold bind at 1. unfold get_self at 1. cbn iota beta.
  unfold bind at 1. rewrite native_spec by reflexivity. cbn [fst snd].
  rewrite poll_outs. unfold bind at 1. unfold poll.
  destruct (_error_handler _ _ _ _ _) as [[u|e] w1]; [|reflexivity].
  destruct (negb _); reflexivity.
Qed.

Lemma after_poll_accepted w :
  accepted K (poll_status w 0) ->
  _error_handler K dll _unit_prefix_n (poll_status w 0)
    (called dll (poll (handle (self w))) w) = (Ok tt, after_poll w) /\
  self (after_poll w) = self w /\ heap (after_poll w) = heap w /\
  calls (after_poll w) = calls w ++ [poll (handle (self w))].
Proof.
  intros Ha. unfold after_poll.
  destruct (error_handler_accepted K dll _unit_prefix_n _
              (called dll (poll (handle (self w))) w) Ha)
    as (w1 & E & Hs & Hh & Hc).
  rewrite E. cbn [snd]. rewrite Hs, Hh, Hc. unfold poll.
  rewrite called_self by reflexivity. repeat split.
Qed.

(** [n] polls in a row that are let through and find the device busy. *)
Lemma is_ready_busy_prefix n : forall w,
  (forall k, (k < n)%nat -> accepted K (poll_status w k) /\ poll_flag w k = 0) ->
  exists wn,
    (forall fuel, is_ready (n + fuel) w = is_ready fuel wn) /\
    self wn = self w /\ heap wn = heap w /\
    calls wn = calls w ++ repeat (poll (handle (self w))) n.
Proof.
  induction n as [|n IH]; intros w H.
  - exists w. cbn. rewrite app_nil_r. repeat split.
  - destruct (H 0%nat ltac:(lia)) as [Ha Hf].
    destruct (after_poll_accepted w Ha) as (E & Hs & Hh & Hc).
    destruct (IH (after_poll w)) as (wn & Hrun & Hsn & Hhn & Hcn).
    { intros k Hk. destruct (H (S k) ltac:(lia)) as [Ha' Hf'].
      unfold poll_status, poll_flag in *. rewrite Hs, Hc, <- app_assoc.
      split; assumption. }
    exists wn. split; [|split; [|split]].
    + intros fuel. cbn [Nat.add]. rewrite is_ready_step, E, Hf.
      cbn [Z.eqb negb]. apply Hrun.
    + rewrite Hsn. exact Hs.
    + rewrite Hhn. exact Hh.
    + rewrite Hcn, Hs, Hc, <- app_assoc. reflexivity.
Qed.
Lemma poll_at_prefix w wn n :
  self wn = self w ->
  calls wn = calls w ++ repeat (poll (handle (self w))) n ->
  poll_status wn 0 = poll_status w n /\ poll_flag wn 0 = poll_flag w n.
Proof.
  intros Hs Hc. unfold poll_status, poll_flag. rewrite Hs, Hc.
  cbn [repeat]. rewrite app_nil_r. split; reflexivity.
Qed.

Lemma repeat_snoc {A} (x : A) n : repeat x n ++ [x] = repeat x (S n).
Proof. symmetry. apply List.repeat_cons. Qed.

(** X14: [is_ready] returns when the device says so.  If the first [n]
    polls are let through and find the device busy and the next one is
    let through and finds it ready, then the loop ends normally after
    exactly [n + 1] [IsReady] calls on the session handle, leaving the
    session object and the heap as they were. *)
Theorem is_ready_returns n w :
  (forall k, (k < n)%nat -> accepted K (poll_status w k) /\ poll_flag w k = 0) ->
  accepted K (poll_status w n) -> poll_flag w n <> 0 ->
  forall fuel, (n < fuel)%nat ->
    exists w',
      is_ready fuel w = (Ok (Some tt), w') /\
      self w' = self w /\ heap w' = heap w /\
      calls w' = calls w ++ repeat (poll (handle (self w))) (S n).
Proof.
  intros Hbusy Ha Hf fuel Hfuel.
  destruct (is_ready_busy_prefix n w Hbusy) as (wn & Hrun & Hs & Hh & Hc).
  destruct (poll_at_prefix w wn n Hs Hc) as [Est Efl].
  replace fuel with (n + S (fuel - S n))%nat by lia.
  rewrite Hrun, is_ready_step.
  rewrite <- Est in Ha. rewrite <- Efl in Hf.
  destruct (after_poll_accepted wn Ha) as (E & Hs' & Hh' & Hc').
  rewrite E. apply Z.eqb_neq in Hf. rewrite Hf. cbn [negb].
  exists (after_poll wn). split; [reflexivity|].
  rewrite Hs', Hh', Hc', Hs, Hh, Hc, <- app_assoc, repeat_snoc.
  repeat split.
Qed.

(** X15: [is_ready] has no way out but the device: if every poll is let
    through and finds the device busy, then no number of polls ends the
    loop; after any [fuel] polls it is still running, [fuel] calls having
    been issued. *)
Theorem is_ready_never_gives_up w :
  (forall k, accepted K (poll_status w k) /\ poll_flag w k = 0) ->
  forall fuel,
    exists w',
      is_ready fuel w = (Ok None, w') /\
      self w' = self w /\
      calls w' = calls w ++ repeat (poll (handle (self w))) fuel.
Proof.
  intros Hbusy fuel.
  destruct (is_ready_busy_prefix fuel w (fun k _ => Hbusy k))
    as (wn & Hrun & Hs & _ & Hc).
  exists wn. replace fuel with (fuel + 0)%nat at 1 by lia.
  rewrite Hrun. repeat split; assumption.
Qed.

(** X16: a fatal status ends the poll.  If the first [n] polls are let
    through and find the device busy and the next one is answered with a
    fatal status, the loop raises the error with the status's message
    after issuing [CloseUnit]. *)
Theorem is_ready_fatal n w msg :
  (forall k, (k < n)%nat -> accepted K (poll_status w k) /\ poll_flag w k = 0) ->
  ERROR_STRING K !! poll_status w n = Some msg ->
  poll_status w n <> 0 ->
  poll_status w n <> POWER_SOURCE_SUPPLY_NOT_CONNECTED K ->
  forall fuel, (n < fuel)%nat ->
    exists w',
      is_ready fuel w = (Raise (PicoSDKException msg), w') /\
      self w' = self w /\
      calls w' = calls w ++ repeat (poll (handle (self w))) (S n)
                 ++ [Call (String.append _unit_prefix_n "CloseUnit")
                       [AHandle (handle (self w))]].
Proof.
  intros Hbusy Hm H0 Hw fuel Hfuel.
  destruct (is_ready_busy_prefix n w Hbusy) as (wn & Hrun & Hs & Hh & Hc).
  destruct (poll_at_prefix w wn n Hs Hc) as [Est Efl].
  replace fuel with (n + S (fuel - S n))%nat by lia.
  rewrite Hrun, is_ready_step. rewrite <- Est in Hm, H0, Hw.
  rewrite (error_handler_known _ _ _ _ _ _ Hm).
  apply Z.eqb_neq in H0, Hw. rewrite H0, Hw.
  eexists. split; [reflexivity|].
  assert (Hself : self (called dll (poll (handle (self wn))) wn) = self wn)
    by (apply called_self; reflexivity).
  assert (Hcalls : calls (called dll (poll (handle (self wn))) wn)
                   = calls wn ++ [poll (handle (self wn))])
    by reflexivity.
  unfold closed. cbn [self calls]. rewrite Hself, Hcalls, Hs, Hc.
  split; [reflexivity|].
  rewrite <- repeat_snoc, <- !app_assoc. reflexivity.
Qed.
End Polling.

(** A unit that reports ready once [n] calls have been made. *)
Definition ready_after (n : nat) : driver :=
  fun h _ =>
    {| reply_status := 0;
       reply_outputs := [if (n <=? length h)%nat then 1 else 0] |}.

Lemma accepted_zero : accepted Bench.K 0.
Proof. split; [eexists; reflexivity | left; reflexivity]. Qed.

Lemma is_ready_returns_witness :
  exists w',
    is_ready Bench.K (ready_after 2) "ps6000a" 10 new_world
    = (Ok (Some tt), w') /\
    calls w' = repeat (Call "ps6000aIsReady" [AHandle 0; AOut c_int16]) 3.
Proof.
  destruct (is_ready_returns Bench.K (ready_after 2) "ps6000a" 2 new_world)
    with (fuel := 10%nat) as (w' & E & _ & _ & Hc).
  - intros k Hk. destruct k as [|[|k]]; [| |lia];
      (split; [exact accepted_zero | reflexivity]).
  - exact accepted_zero.
  - discriminate.
  - lia.
  - exists w'. split; [exact E | exact Hc].
Defined.

Lemma is_ready_never_gives_up_witness :
  exists w',
    is_ready Bench.K Bench.healthy "ps6000a" 25 new_world = (Ok None, w') /\
    calls w' = repeat (Call "ps6000aIsReady" [AHandle 0; AOut c_int16]) 25.
Proof.
  destruct (is_ready_never_gives_up Bench.K Bench.healthy "ps6000a" new_world)
    with (fuel := 25%nat) as (w' & E & _ & Hc).
  - intros k. split; [apply healthy_accepted | reflexivity].
  - exists w'. split; [exact E | exact Hc].
Defined.

Lemma is_ready_fatal_witness :
  exists w',
    is_ready Bench.K (Bench.constant_driver 12 [0]) "ps5000a" 3 new_world
    = (Raise (PicoSDKException "PICO_INVALID_HANDLE"), w') /\
    calls w' = [Call "ps5000aIsReady" [AHandle 0; AOut c_int16];
                Call "ps5000aCloseUnit" [AHandle 0]].
Proof.
  destruct (is_ready_fatal Bench.K (Bench.constant_driver 12 [0]) "ps5000a"
              0 new_world "PICO_INVALID_HANDLE")
    with (fuel := 3%nat) as (w' & E & _ & Hc).
  - intros k Hk. lia.
  - reflexivity.
  - discriminate.
  - discriminate.
  - lia.
  - exists w'. split; [exact E | exact Hc].
Defined.

(** ** The range table across calls *)

Lemma dict_set_keys_nodup {V} (d : dict V) k v :
  List.NoDup (dict_keys d) -> List.NoDup (dict_keys (dict_set d k v)).
Proof.
  intros Hnd. destruct (in_dec Z.eq_dec k (dict_keys d)) as [Hin|Hout].
  - rewrite dict_keys_set_in by exact Hin. exact Hnd.
  - rewrite dict_set_fresh, dict_keys_app by exact Hout. cbn.
    apply List.NoDup_app; [exact Hnd | repeat constructor; intros [] |].
    intros a Ha [<-|[]]. contradiction.
Qed.

(** X17: what a [set_channel] call does to the range table, whatever the
    driver answers.  On the legacy generation (with [enabled] either way)
    and on the current one (with [enabled=True]) the table afterwards
    binds the channel to the requested range, binds every other channel
    as before, keeps the channels in the order they were first
    configured (a channel configured again keeps its place, a new one
    goes last) and lists no channel twice; the rest of the session
    object and the heap are as before. *)
Theorem set_channel_range_table K dll channel rng enabled coupling offset
  bandwidth w :
  let w5 := snd (ps5000a.set_channel K dll channel rng enabled coupling
                   offset w) in
  let w6 := snd (ps6000a.set_channel K dll channel rng true coupling offset
                   bandwidth w) in
  let t := range (self w) in
  let t' := dict_set t channel rng in
  (self w5 = with_range (self w) channel rng /\ heap w5 = heap w) /\
  (self w6 = with_range (self w) channel rng /\ heap w6 = heap w) /\
  dict_get t' channel = Some rng /\
  (forall other, other <> channel -> dict_get t' other = dict_get t other) /\
  (In channel (dict_keys t) -> dict_keys t' = dict_keys t) /\
  (~ In channel (dict_keys t) -> dict_keys t' = dict_keys t ++ [channel]) /\
  (List.NoDup (dict_keys t) -> List.NoDup (dict_keys t')).
Proof.
  intros w5 w6 t t'.
  split; [|split; [|split; [|split; [|split; [|split]]]]].
  - exact (enable_pipeline_frame K dll "ps5000a" "ps5000aSetChannel"
             (c_float offset)
             (fun h d => set_channel_args h channel enabled coupling rng d)
             channel rng w (fun _ _ => eq_refl)).
  - exact (enable_pipeline_frame K dll "ps6000a" "ps6000aSetChannelOn"
             (c_double offset)
             (fun h d => set_channel_on_args h channel coupling rng d
                           bandwidth)
             channel rng w (fun _ _ => eq_refl)).
  - apply dict_get_set_eq.
  - intros other Hne. apply dict_get_set_ne. congruence.
  - apply dict_keys_set_in.
  - intros Hout. unfold t'. rewrite dict_set_fresh by exact Hout.
    apply dict_keys_app.
  - apply dict_set_keys_nodup.
Qed.

Lemma mv_to_adc_with_range K s channel rng mv r :
  mv_to_adc K (with_range s channel rng) mv r = mv_to_adc K s mv r.
Proof. reflexivity. Qed.

(** X18: the trigger threshold is converted with the range of the last
    successful [set_channel] on that channel, whatever the table held
    for it before.  After such a call with range [rng], a
    [set_simple_trigger] on the channel converts its threshold in range
    [rng]; a threshold whose conversion fails raises that failure
    without any native call.  If the code [adc] it converts to, or
    another integer argument, is more than ctypes can pass,
    [ArgumentError] is raised and [SetSimpleTrigger] is not called.
    Otherwise exactly that code is passed to [SetSimpleTrigger], on the
    session handle, and the driver's status goes to the status
    handler. *)
Theorem trigger_uses_recorded_range K dll channel rng enabled coupling offset
  bandwidth threshold_mv enable direction delay auto_trigger_ms w w1 pfx :
  ps6000a.set_channel K dll channel rng true coupling offset bandwidth w
    = (Ok tt, w1) \/
  ps5000a.set_channel K dll channel rng enabled coupling offset w
    = (Ok tt, w1) ->
  set_simple_trigger K dll pfx channel threshold_mv enable direction delay
    auto_trigger_ms w1
  = match mv_to_adc K (self w) threshold_mv rng with
    | Ok adc =>
        let args := [AHandle (handle (self w)); ABool enable; AInt channel;
                     AInt adc; AInt direction; AInt delay;
                     AInt auto_trigger_ms] in
        let c := Call (String.append pfx "SetSimpleTrigger") args in
        if forallb (marshals K) args
        then _error_handler K dll pfx (status_of dll c w1) (called dll c w1)
        else (Raise ArgumentError, w1)
    | Raise e => (Raise e, w1)
    end.
Proof.
  intros H.
  assert (Hs : self w1 = with_range (self w) channel rng).
  { destruct H as [H|H].
    - destruct (enable_pipeline_frame K dll "ps6000a" "ps6000aSetChannelOn"
                  (c_double offset)
                  (fun h d => set_channel_on_args h channel coupling rng d
                                bandwidth)
                  channel rng w (fun _ _ => eq_refl)) as (Hs & _).
      change (self (snd (ps6000a.set_channel K dll channel rng true coupling
                           offset bandwidth w))
              = with_range (self w) channel rng) in Hs.
      rewrite H in Hs. exact Hs.
    - destruct (enable_pipeline_frame K dll "ps5000a" "ps5000aSetChannel"
                  (c_float offset)
                  (fun h d => set_channel_args h channel enabled coupling
                                rng d)
                  channel rng w (fun _ _ => eq_refl)) as (Hs & _).
      change (self (snd (ps5000a.set_channel K dll channel rng enabled
                           coupling offset w))
              = with_range (self w) channel rng) in Hs.
      rewrite H in Hs. exact Hs. }
  unfold set_simple_trigger. unfold bind at 1. unfold get_self at 1.
  cbn iota beta. unfold bind at 1. unfold lift at 1, dict_getitem.
  rewrite Hs. cbn [range with_range handle]. rewrite dict_get_set_eq.
  unfold bind at 1. unfold lift at 1.
  rewrite mv_to_adc_with_range.
  destruct (mv_to_adc K (self w) threshold_mv rng) as [adc|e];
    [|reflexivity].
  cbv zeta. unfold bind at 1.
  destruct (forallb (marshals K) _) eqn:Hm.
  - rewrite native_spec by exact Hm. reflexivity.
  - rewrite native_refused by exact Hm. reflexivity.
Qed.

Lemma trigger_uses_recorded_range_witness :
  let w1 := snd (ps6000a.set_channel Bench.K Bench.healthy 0 8 true 1
                   (Float (Fin 0)) 0
                   {| self := Bench.opened; heap := []; calls := [];
                      stdout := [] |}) in
  calls (snd (set_simple_trigger Bench.K Bench.healthy "ps6000a" 0 (Int 2500)
                true 2 0 3000 w1))
  = [Call "ps6000aSetChannelOn"
       [AHandle 16384; AInt 0; AInt 1; AInt 8; ADouble (Float (Fin 0));
        AInt 0];
     Call "ps6000aSetSimpleTrigger"
       [AHandle 16384; ABool true; AInt 0; AInt 16256; AInt 2; AInt 0;
        AInt 3000]].
Proof.
  intros w1.
  rewrite (trigger_uses_recorded_range Bench.K Bench.healthy 0 8 true 1
             (Float (Fin 0)) 0 (Int 2500) true 2 0 3000
             {| self := Bench.opened; heap := []; calls := [];
                stdout := [] |} w1 "ps6000a");
    [|left; reflexivity].
  vm_compute. reflexivity.
Defined.

(** A threshold of [1e18] mV at the 1 V range converts to a code of
    twenty digits, more than ctypes passes: the trigger is not set and
    no call is made. *)
Example trigger_threshold_too_large :
  let w := {| self := Bench.opened; heap := []; calls := []; stdout := [] |} in
  mv_to_adc Bench.K Bench.opened (Float (Fin (10 ^ 18))) 6
  = Ok 32512000000000000000 /\
  set_simple_trigger Bench.K Bench.healthy "ps6000a" 0
    (Float (Fin (10 ^ 18))) true 2 0 3000 w
  = (Raise ArgumentError, w).
Proof. vm_compute. split; reflexivity. Qed.

(** ** Conversions that fail *)

(** X19: [buffer_adc_to_mv] looks the channel's range up once per sample.
    On a channel that was never configured, an empty buffer therefore
    converts to a new empty list, while a buffer with at least one
    sample raises the [KeyError] of the range table and leaves the world
    as it was. *)
Theorem buffer_adc_to_mv_unconfigured K buffer channel w o :
  heap w !! buffer = Some o ->
  dict_get (range (self w)) channel = None ->
  buffer_adc_to_mv K buffer channel w
  = match items_of o with
    | [] => (Ok (length (heap w)), extend w (PyList []))
    | _ :: _ => (Raise (KeyError channel), w)
    end.
Proof.
  intros Hb Hr. unfold buffer_adc_to_mv.
  unfold bind at 1. unfold deref at 1. rewrite Hb.
  unfold bind at 1. rewrite map_m_samples.
  destruct (items_of o) as [|x items]; [reflexivity|].
  cbn [samples_to_mv]. unfold sample_to_mv, dict_getitem. rewrite Hr.
  reflexivity.
Qed.

Lemma buffer_adc_to_mv_unconfigured_witness :
  buffer_adc_to_mv Bench.K 1%nat 3 captured = (Raise (KeyError 3), captured) /\
  buffer_adc_to_mv Bench.K 0%nat 3
    {| self := Bench.opened; heap := [CArray c_int16 []]; calls := [];
       stdout := [] |}
  = (Ok 1%nat,
     {| self := Bench.opened; heap := [CArray c_int16 []; PyList []];
        calls := []; stdout := [] |}).
Proof.
  split.
  - apply (buffer_adc_to_mv_unconfigured Bench.K 1%nat 3 captured
             (CArray c_int16 [0; 16256; -32512])); reflexivity.
  - apply (buffer_adc_to_mv_unconfigured Bench.K 0%nat 3
             {| self := Bench.opened; heap := [CArray c_int16 []];
                calls := []; stdout := [] |} (CArray c_int16 []));
      reflexivity.
Defined.

Lemma for_each_app {A} (body : A -> M unit) (l1 l2 : list A) : forall w,
  for_each (l1 ++ l2) body w
  = match for_each l1 body w with
    | (Ok _, w1) => for_each l2 body w1
    | (Raise e, w1) => (Raise e, w1)
    end.
Proof.
  induction l1 as [|a l1 IH]; intros w; [reflexivity|].
  cbn [app for_each]. unfold bind.
  destruct (body a w) as [[u|e] w1]; [apply IH | reflexivity].
Qed.

(** X20: the bulk millivolt conversion is not all-or-nothing.  Let the
    mapping list the channels [ks1], then [k], then [ks2]; let every
    buffer of [ks1] convert and the buffer of [k] fail with [e].  Then
    the call raises [e], and the mapping object is left half converted:
    the channels of [ks1] are bound to new lists of millivolt values,
    [k] and the channels after it are bound to their raw buffers as
    before, and the key order is unchanged. *)
Theorem bulk_conversion_stops_midway K cb d ks1 k ks2 b o e w :
  heap w !! cb = Some (PyDict d) ->
  dict_keys d = ks1 ++ k :: ks2 ->
  List.NoDup (dict_keys d) ->
  (forall k', In k' ks1 ->
     exists b' o' vs, dict_get d k' = Some b' /\ heap w !! b' = Some o' /\
                      is_buffer o' /\
                      samples_to_mv K (self w) k' (items_of o') = Ok vs) ->
  dict_get d k = Some b -> heap w !! b = Some o -> is_buffer o ->
  samples_to_mv K (self w) k (items_of o) = Raise e ->
  exists w' d',
    buffer_adc_to_mv_multiple_channels K cb w = (Raise e, w') /\
    self w' = self w /\ calls w' = calls w /\
    heap w' !! cb = Some (PyDict d') /\
    dict_keys d' = dict_keys d /\
    (forall k', ~ In k' ks1 -> dict_get d' k' = dict_get d k') /\
    (forall k' b' o' vs, In k' ks1 -> dict_get d k' = Some b' ->
       heap w !! b' = Some o' ->
       samples_to_mv K (self w) k' (items_of o') = Ok vs ->
       exists l, dict_get d' k' = Some l /\ (length (heap w) <= l)%nat /\
                 heap w' !! l = Some (PyList vs)).
Proof.
  intros Hcb Hkeys Hnd Hconv Hk Hb Ho He.
  assert (Hne : forall b' o', heap w !! b' = Some o' -> is_buffer o' ->
                              b' <> cb).
  { intros b' o' Hb' Ho' ->. rewrite Hcb in Hb'. inversion Hb'; subst o'.
    exact Ho'. }
  rewrite Hkeys in Hnd.
  pose proof (List.NoDup_remove_2 _ _ _ Hnd) as Hk1.
  assert (Hnd1 : List.NoDup ks1).
  { apply List.NoDup_app_remove_r in Hnd. exact Hnd. }
  set (g := fun k o => PyList match samples_to_mv K (self w) k (items_of o)
                              with
                              | Ok vs => vs
                              | Raise _ => []
                              end).
  destruct (convert_loop (buffer_adc_to_mv K) g
              (fun k o => exists vs,
                   samples_to_mv K (self w) k (items_of o) = Ok vs)
              (self w)) with (cb := cb) (ks := ks1) (w := w) (m := d)
    as (w' & d' & Hrun & Hs' & Hc' & _ & Hcb' & Hkeys' & Hrest & Hnew & Hkeep);
    auto.
  { intros b0 k0 w0 o0 Hs Hb0 [vs Hvs]. unfold g. rewrite Hvs.
    apply (buffer_adc_to_mv_spec K b0 k0 w0 o0 vs Hb0). rewrite Hs.
    exact Hvs. }
  { intros k' Hk'. destruct (Hconv k' Hk') as (b' & o' & vs & H1 & H2 & H3 & H4).
    exists b', o'. eauto 7. }
  exists w', d'. split.
  - unfold buffer_adc_to_mv_multiple_channels.
    unfold bind at 1. rewrite (keys_of_spec cb d w Hcb).
    unfold bind at 1. rewrite Hkeys.
    change (for_each (ks1 ++ k :: ks2) _ w)
      with (for_each (ks1 ++ k :: ks2)
              (convert_entry (buffer_adc_to_mv K) cb) w).
    rewrite for_each_app, Hrun. cbn [for_each]. unfold bind at 1.
    unfold convert_entry. unfold bind at 1. unfold getitem.
    unfold bind at 1. unfold deref at 1. rewrite Hcb'.
    unfold lift, dict_getitem. rewrite (Hrest k) by (intros Hin; apply Hk1;
      apply in_or_app; left; exact Hin). rewrite Hk.
    unfold bind at 1. unfold buffer_adc_to_mv.
    unfold bind at 1. unfold deref at 1.
    rewrite (Hkeep b o (Hne b o Hb Ho) Hb).
    unfold bind at 1. rewrite map_m_samples, Hs', He. reflexivity.
  - split; [exact Hs'|]. split; [exact Hc'|]. split; [exact Hcb'|].
    split; [exact Hkeys'|]. split; [exact Hrest|].
    intros k' b' o' vs Hin Hb' Ho' Hvs.
    destruct (Hnew k' b' o' Hin Hb' Ho') as (l & Hl & Hge & Hl').
    exists l. unfold g in Hl'. rewrite Hvs in Hl'. auto.
Qed.

(** A capture of two channels of which only channel 0 was configured:
    the mapping (object 0) binds channel 0 to object 1 and channel 1 to
    object 2. *)
Definition captured_two : world :=
  {| self := Bench.opened;
     heap := [PyDict [(0, 1%nat); (1, 2%nat)];
              CArray c_int16 [0; 16256; -32512]; CArray c_int16 [7]];
     calls := []; stdout := [] |}.

Lemma bulk_conversion_stops_midway_witness :
  exists w' d',
    buffer_adc_to_mv_multiple_channels Bench.K 0%nat captured_two
    = (Raise (KeyError 1), w') /\
    heap w' !! 0%nat = Some (PyDict d') /\
    dict_get d' 1 = Some 2%nat /\
    exists l, dict_get d' 0 = Some l /\ (3 <= l)%nat /\
              heap w' !! l
              = Some (PyList [Float (Fin 0); Float (Fin 500);
                              Float (Fin (-1000))]).
Proof.
  destruct (bulk_conversion_stops_midway Bench.K 0%nat
              [(0, 1%nat); (1, 2%nat)] [0] 1 [] 2%nat (CArray c_int16 [7])
              (KeyError 1) captured_two)
    as (w' & d' & E & _ & _ & Hcb & _ & Hrest & Hnew);
    try reflexivity.
  - repeat constructor; cbn; intuition discriminate.
  - intros k' [<-|[]]. exists 1%nat, (CArray c_int16 [0; 16256; -32512]).
    exists [Float (Fin 0); Float (Fin 500); Float (Fin (-1000))].
    split; [reflexivity|]. split; [reflexivity|]. split; [exact I|].
    vm_compute. reflexivity.
  - exists w', d'. split; [exact E|]. split; [exact Hcb|]. split.
    + rewrite Hrest; [reflexivity|]. intros [H|[]]. discriminate.
    + apply (Hnew 0 1%nat (CArray c_int16 [0; 16256; -32512]));
        [left; reflexivity | reflexivity | reflexivity |].
      vm_compute. reflexivity.
Defined.

(** * The version script ([version_main.py]) *)

(** [update_lines] rewrites a file line by line.  Its loop is modelled
    from the list [f.readlines()] returns to the strings handed to
    [f.write], in order, with the messages printed; the file around it
    is its decoded text, read and written in text mode.  A Python string
    is a sequence of code points; the type of code points and the
    whitespace test of [str.strip] are left open, [of_ascii] embeds the
    characters of the script's own literals. *)
Section version_main.
Context {char : Type} `{EqDecision char}.
Variable isspace : char -> bool.
Variable of_ascii : Ascii.ascii -> char.

Definition text : Type := list char.

Definition lit (s : string) : text := map of_ascii (list_ascii_of_string s).

Definition newline : char := of_ascii (Ascii.ascii_of_nat 10).

Fixpoint lstrip (s : text) : text :=
  match s with
  | [] => []
  | c :: s' => if isspace c then lstrip s' else s
  end.

Definition rstrip (s : text) : text := rev (lstrip (rev s)).

Definition strip (s : text) : text := lstrip (rstrip s).

Fixpoint startswith (s prefix : text) : bool :=
  match prefix, s with
  | [], _ => true
  | _ :: _, [] => false
  | c :: prefix', d :: s' => bool_decide (d = c) && startswith s' prefix'
  end.

(** One turn of the loop: what is written and what is printed. *)
Definition update_line (start_with replacement_string line : text)
  : text * list text :=
  if startswith (strip line) start_with
  then (replacement_string ++ [newline],
        [lit "replacing " ++ line ++ [newline] ++ lit "with "
           ++ replacement_string])
  else (line, []).

Fixpoint update_lines (lines : list text)
  (start_with replacement_string : text) : list text * list text :=
  match lines with
  | [] => ([], [])
  | line :: rest =>
      let r := update_line start_with replacement_string line in
      let rs := update_lines rest start_with replacement_string in
      (fst r :: fst rs, snd r ++ snd rs)
  end.

Lemma rstrip_newline s :
  isspace newline = true -> rstrip (s ++ [newline]) = rstrip s.
Proof.
  intros H. unfold rstrip. rewrite rev_app_distr. cbn [rev app lstrip].
  rewrite H. reflexivity.
Qed.

Lemma update_line_again start_with replacement_string line :
  isspace newline = true ->
  startswith (strip replacement_string) start_with = true ->
  let r := update_line start_with replacement_string line in
  let r' := update_line start_with replacement_string (fst r) in
  fst r' = fst r /\ length (snd r') = length (snd r).
Proof.
  intros Hnl Hr.
  assert (Hrep : exists msg,
             update_line start_with replacement_string
               (replacement_string ++ [newline])
             = (replacement_string ++ [newline], [msg])).
  { unfold update_line, strip. rewrite rstrip_newline by exact Hnl.
    fold (strip replacement_string). rewrite Hr. eexists. reflexivity. }
  destruct Hrep as [msg Hrep].
  destruct (startswith (strip line) start_with) eqn:E.
  - assert (H : exists msg',
               update_line start_with replacement_string line
               = (replacement_string ++ [newline], [msg']))
      by (unfold update_line; rewrite E; eexists; reflexivity).
    destruct H as [msg' H]. cbv zeta. rewrite H. cbn [fst snd].
    rewrite Hrep. split; reflexivity.
  - assert (H : update_line start_with replacement_string line = (line, []))
      by (unfold update_line; rewrite E; reflexivity).
    cbv zeta. rewrite H. cbn [fst snd]. rewrite H. split; reflexivity.
Qed.

(** A second pass of the loop over the strings written by the first
    writes them again. *)
Lemma update_lines_again lines start_with replacement_string :
  isspace newline = true ->
  startswith (strip replacement_string) start_with = true ->
  let first := update_lines lines start_with replacement_string in
  let second := update_lines (fst first) start_with replacement_string in
  fst second = fst first /\ length (snd second) = length (snd first).
Proof.
  intros Hnl Hr. cbv zeta.
  induction lines as [|line rest [IHw IHp]]; [split; reflexivity|].
  destruct (update_line_again start_with replacement_string line Hnl Hr)
    as [Hw Hp].
  cbn [update_lines fst snd]. rewrite !length_app, IHw, IHp, Hw, Hp.
  split; reflexivity.
Qed.

(** X22: the written lines are the lines read exactly when every line
    that matches the prefix already is the replacement followed by a
    line feed; there are as many written strings as lines read, and a
    pass without a matching line prints nothing. *)
Theorem update_lines_unchanged_iff lines start_with replacement_string :
  let r := update_lines lines start_with replacement_string in
  length (fst r) = length lines /\
  (fst r = lines <->
   forall line, In line lines ->
     startswith (strip line) start_with = true ->
     line = replacement_string ++ [newline]) /\
  ((forall line, In line lines ->
      startswith (strip line) start_with = false) ->
   r = (lines, [])).
Proof.
  cbv zeta. induction lines as [|line rest (IHl & IHi & IHn)].
  - repeat split; intros; try reflexivity. contradiction.
  - cbn [update_lines fst snd length]. split; [rewrite IHl; reflexivity|].
    split; [split|].
    + intros H. inversion H as [[H1 H2]]. rewrite H2, H1.
      intros l [<-|Hin] Hm.
      * unfold update_line in H1. rewrite Hm in H1. cbn [fst] in H1.
        symmetry. exact H1.
      * apply (proj1 IHi H2 l Hin Hm).
    + intros H. f_equal.
      * unfold update_line.
        destruct (startswith (strip line) start_with) eqn:E; [|reflexivity].
        cbn [fst]. symmetry. apply H; [left; reflexivity | exact E].
      * apply IHi. intros l Hin. apply H. right. exact Hin.
    + intros H. rewrite IHn by (intros l Hin; apply H; right; exact Hin).
      unfold update_line. rewrite (H line (or_introl eq_refl)). reflexivity.
Qed.

(** ** The file around the loop *)

Definition cr : char := of_ascii (Ascii.ascii_of_nat 13).

(** [os.linesep] *)
Variable linesep : text.

(** Reading in text mode: universal newlines, a carriage return with or
    without a line feed after it becomes one line feed. *)
Fixpoint universal_newlines (s : text) : text :=
  match s with
  | [] => []
  | c :: s' =>
      if bool_decide (c = cr)
      then newline :: match s' with
                      | d :: s'' =>
                          if bool_decide (d = newline)
                          then universal_newlines s''
                          else universal_newlines s'
                      | [] => []
                      end
      else c :: universal_newlines s'
  end.

(** [f.readlines()]: the text cut after each line feed. *)
Fixpoint readlines (s : text) : list text :=
  match s with
  | [] => []
  | c :: s' =>
      if bool_decide (c = newline) then [c] :: readlines s'
      else match readlines s' with
           | [] => [[c]]
           | l :: ls => (c :: l) :: ls
           end
  end.

(** Writing in text mode: each line feed becomes [os.linesep]. *)
Fixpoint translate_out (s : text) : text :=
  match s with
  | [] => []
  | c :: s' =>
      if bool_decide (c = newline) then linesep ++ translate_out s'
      else c :: translate_out s'
  end.

(** [update_lines] on the text of the file: the text it leaves and the
    messages it prints. *)
Definition update_file (content start_with replacement_string : text)
  : text * list text :=
  let r := update_lines (readlines (universal_newlines content)) start_with
             replacement_string in
  (concat (map translate_out (fst r)), snd r).

Lemma translate_out_app s1 s2 :
  translate_out (s1 ++ s2) = translate_out s1 ++ translate_out s2.
Proof.
  induction s1 as [|c s1 IH]; [reflexivity|]. cbn [app translate_out].
  rewrite IH. destruct (bool_decide (c = newline));
    [rewrite app_assoc|]; reflexivity.
Qed.

Lemma translate_out_concat ls :
  concat (map translate_out ls) = translate_out (concat ls).
Proof.
  induction ls as [|l ls IH]; [reflexivity|]. cbn [map concat].
  rewrite IH, translate_out_app. reflexivity.
Qed.

Lemma concat_readlines s : concat (readlines s) = s.
Proof.
  induction s as [|c s IH]; [reflexivity|]. cbn [readlines].
  destruct (bool_decide (c = newline)).
  - cbn [concat app]. rewrite IH. reflexivity.
  - destruct (readlines s) as [|l ls].
    + cbn in IH. rewrite <- IH. reflexivity.
    + cbn [concat app] in *. rewrite IH. reflexivity.
Qed.

(** Lines as [readlines] gives them: each ends with its only line feed,
    except that the last may have none. *)
Definition complete (l : text) : Prop :=
  exists body, l = body ++ [newline] /\ ~ In newline body.

Definition unfinished (l : text) : Prop := l <> [] /\ ~ In newline l.

Fixpoint well_formed (ls : list text) : Prop :=
  match ls with
  | [] => True
  | l :: ls' =>
      match ls' with
      | [] => complete l \/ unfinished l
      | _ :: _ => complete l /\ well_formed ls'
      end
  end.

Lemma complete_cons c l : c <> newline -> complete l -> complete (c :: l).
Proof.
  intros Hc (body & -> & Hb). exists (c :: body). split; [reflexivity|].
  intros [H|H]; [congruence | contradiction].
Qed.

Lemma readlines_well_formed s : well_formed (readlines s).
Proof.
  induction s as [|c s IH]; [exact I|]. cbn [readlines].
  destruct (bool_decide (c = newline)) eqn:Ec.
  - apply bool_decide_eq_true in Ec. subst c.
    assert (Hc : complete [newline]) by (exists []; split; [reflexivity | intros []]).
    cbn [well_formed]. destruct (readlines s); [left; exact Hc|].
    split; [exact Hc | exact IH].
  - apply bool_decide_eq_false in Ec.
    destruct (readlines s) as [|l ls].
    + right. split; [discriminate|]. intros [H|[]]. congruence.
    + cbn [well_formed] in *. destruct ls as [|l' ls].
      * destruct IH as [H|[Hn Hl]].
        -- left. apply complete_cons; assumption.
        -- right. split; [discriminate|].
           intros [H|H]; [congruence | contradiction].
      * destruct IH as [H Hw]. split; [|exact Hw].
        apply complete_cons; assumption.
Qed.

Lemma readlines_complete body rest :
  ~ In newline body ->
  readlines ((body ++ [newline]) ++ rest)
  = (body ++ [newline]) :: readlines rest.
Proof.
  induction body as [|c body IH]; intros Hb.
  - cbn. rewrite bool_decide_eq_true_2 by reflexivity. reflexivity.
  - cbn [app readlines].
    rewrite bool_decide_eq_false_2 by (intros ->; apply Hb; left; reflexivity).
    cbn [app] in IH. rewrite IH by (intros H; apply Hb; right; exact H).
    reflexivity.
Qed.

Lemma readlines_unfinished l : unfinished l -> readlines l = [l].
Proof.
  intros [Hn Hl]. induction l as [|c l IH]; [congruence|].
  cbn [readlines].
  rewrite bool_decide_eq_false_2 by (intros ->; apply Hl; left; reflexivity).
  destruct l as [|d l]; [reflexivity|].
  rewrite IH; [reflexivity | discriminate |].
  intros H. apply Hl. right. exact H.
Qed.

Lemma readlines_concat ls : well_formed ls -> readlines (concat ls) = ls.
Proof.
  induction ls as [|l ls IH]; [reflexivity|]. cbn [well_formed concat].
  destruct ls as [|l' ls].
  - cbn [concat]. rewrite app_nil_r. intros [(body & -> & Hb)|Hu].
    + rewrite <- (app_nil_r (body ++ [newline])) at 1.
      rewrite readlines_complete by exact Hb. reflexivity.
    + apply readlines_unfinished. exact Hu.
  - intros [(body & -> & Hb) Hw].
    rewrite readlines_complete by exact Hb. rewrite IH by exact Hw.
    reflexivity.
Qed.

Section RoundTrip.
Hypothesis newline_not_cr : newline <> cr.
Hypothesis linesep_known : linesep = [newline] \/ linesep = [cr; newline].

Lemma universal_newlines_no_cr s : ~ In cr (universal_newlines s).
Proof.
  assert (H : forall n s, (length s <= n)%nat ->
                          ~ In cr (universal_newlines s)).
  { clear s. induction n as [|n IH]; intros [|c s] Hlen; cbn in Hlen;
      try lia; try (intros []).
    cbn [universal_newlines]. destruct (bool_decide (c = cr)) eqn:Ec.
    - intros [Hin|Hin]; [contradiction|].
      destruct s as [|d s]; [destruct Hin|].
      destruct (bool_decide (d = newline)).
      + apply (IH s); [cbn in Hlen; lia | exact Hin].
      + apply (IH (d :: s)); [cbn in Hlen |- *; lia | exact Hin].
    - apply bool_decide_eq_false in Ec. intros [Hin|Hin]; [congruence|].
      apply (IH s); [lia | exact Hin]. }
  apply (H (length s)). lia.
Qed.

(** Text without carriage returns is read back as it was written. *)
Lemma read_back s :
  ~ In cr s -> universal_newlines (translate_out s) = s.
Proof.
  induction s as [|c s IH]; intros Hs; [reflexivity|].
  assert (Hc : c <> cr) by (intros ->; apply Hs; left; reflexivity).
  assert (Hs' : ~ In cr s) by (intros H; apply Hs; right; exact H).
  cbn [translate_out]. destruct (bool_decide (c = newline)) eqn:Ec.
  - apply bool_decide_eq_true in Ec. subst c.
    destruct linesep_known as [-> | ->]; cbn [app universal_newlines].
    + rewrite bool_decide_eq_false_2 by exact newline_not_cr.
      rewrite IH by exact Hs'. reflexivity.
    + rewrite bool_decide_eq_true_2 by reflexivity.
      rewrite bool_decide_eq_true_2 by reflexivity.
      rewrite IH by exact Hs'. reflexivity.
  - cbn [universal_newlines]. rewrite bool_decide_eq_false_2 by exact Hc.
    rewrite IH by exact Hs'. reflexivity.
Qed.

Lemma update_lines_shape lines start_with replacement_string :
  (forall c, In c replacement_string -> c <> newline /\ c <> cr) ->
  well_formed lines -> Forall (fun l => ~ In cr l) lines ->
  let ws := fst (update_lines lines start_with replacement_string) in
  well_formed ws /\ Forall (fun l => ~ In cr l) ws.
Proof.
  intros Hrp.
  assert (Hline : forall line,
             let l' := fst (update_line start_with replacement_string line) in
             (complete line -> complete l') /\
             (unfinished line -> complete l' \/ unfinished l') /\
             (~ In cr line -> ~ In cr l')).
  { intros line. unfold update_line.
    destruct (startswith (strip line) start_with); cbn [fst];
      [|tauto].
    assert (Hc : complete (replacement_string ++ [newline])).
    { exists replacement_string. split; [reflexivity|].
      intros H. destruct (Hrp _ H) as [H' _]. congruence. }
    split; [tauto|]. split; [tauto|]. intros _ Hin.
    apply in_app_or in Hin. destruct Hin as [Hin|[Hin|[]]].
    - destruct (Hrp _ Hin) as [_ H']. congruence.
    - apply newline_not_cr. exact Hin. }
  induction lines as [|line rest IH]; intros Hw Hcr;
    [split; [exact I | constructor]|].
  inversion Hcr as [|? ? Hl Hrest]; subst.
  destruct (Hline line) as (H1 & H2 & H3). cbv zeta in H1, H2, H3.
  cbn [update_lines fst]. cbn [well_formed] in Hw.
  destruct rest as [|line' rest].
  - cbn [update_lines fst well_formed]. split.
    + destruct Hw as [Hw|Hw]; [left; apply H1, Hw | apply H2, Hw].
    + constructor; [apply H3, Hl | constructor].
  - destruct Hw as [Hc Hw]. destruct (IH Hw Hrest) as [IHw IHc].
    cbv zeta in IHw, IHc. split.
    + cbn [well_formed]. cbn [update_lines fst] in IHw |- *.
      split; [apply H1, Hc | exact IHw].
    + constructor; [apply H3, Hl | exact IHc].
Qed.

Lemma concat_no_cr ls :
  Forall (fun l => ~ In cr l) ls -> ~ In cr (concat ls).
Proof.
  induction 1 as [|l ls Hl _ IH]; [intros []|]. cbn [concat].
  intros H. apply in_app_or in H. tauto.
Qed.

Lemma readlines_no_cr s :
  ~ In cr s -> Forall (fun l => ~ In cr l) (readlines s).
Proof.
  intros Hs. apply List.Forall_forall. intros l Hl Hin. apply Hs.
  rewrite <- (concat_readlines s). apply in_concat. exists l. tauto.
Qed.

(** X21: running [update_lines] on a file a second time with the same
    arguments leaves the file as the first run left it, provided the
    replacement holds no line feed and no carriage return and, stripped,
    starts with the searched prefix (the line feed counting as
    whitespace, and [os.linesep] being a line feed with or without a
    carriage return before it).  The first run may already change a
    file without a matching line (its line ends are normalised); the
    second run changes nothing, yet prints as many [replacing] messages
    as the first. *)
Theorem update_lines_idempotent content start_with replacement_string :
  isspace newline = true ->
  (forall c, In c replacement_string -> c <> newline /\ c <> cr) ->
  startswith (strip replacement_string) start_with = true ->
  let first := update_file content start_with replacement_string in
  let second := update_file (fst first) start_with replacement_string in
  fst second = fst first /\ length (snd second) = length (snd first).
Proof.
  intros Hnl Hrp Hr. cbv zeta. unfold update_file. cbn [fst snd].
  set (lines := readlines (universal_newlines content)).
  destruct (update_lines_shape lines start_with replacement_string Hrp)
    as [Hw Hcr].
  { apply readlines_well_formed. }
  { apply readlines_no_cr, universal_newlines_no_cr. }
  cbv zeta in Hw, Hcr.
  rewrite !translate_out_concat, read_back by (apply concat_no_cr, Hcr).
  rewrite readlines_concat by exact Hw.
  destruct (update_lines_again lines start_with replacement_string Hnl Hr)
    as [E1 E2].
  cbv zeta in E1, E2. rewrite E1, E2. split; reflexivity.
Qed.
End RoundTrip.
End version_main.

(** Code points up to 255, with Python's [str.isspace] on them. *)
Definition isspace_latin1 (c : Ascii.ascii) : bool :=
  let n := Ascii.nat_of_ascii c in
  ((9 <=? n) && (n <=? 13) || (28 <=? n) && (n <=? 32)
   || (n =? 133) || (n =? 160))%nat.

Definition codepoints (s : string) : list Ascii.ascii :=
  list_ascii_of_string s.

Definition LF : Ascii.ascii := Ascii.ascii_of_nat 10.
Definition CR : Ascii.ascii := Ascii.ascii_of_nat 13.

(** A setup file of three lines with Windows line ends, the version line
    indented, the last line unfinished. *)
Definition setup_file : list Ascii.ascii :=
  codepoints "setup(" ++ [CR; LF]
  ++ codepoints "    version=0.1.1," ++ [CR; LF]
  ++ codepoints ")".

Lemma update_lines_idempotent_witness :
  let run := fun content =>
    update_file isspace_latin1 id [LF] content (codepoints "version=")
      (codepoints "    version=0.1.2,") in
  fst (run (fst (run setup_file))) = fst (run setup_file) /\
  fst (run setup_file)
  = codepoints "setup(" ++ [LF]
    ++ codepoints "    version=0.1.2," ++ [LF]
    ++ codepoints ")".
Proof.
  intros run. split; [|vm_compute; reflexivity].
  apply (update_lines_idempotent isspace_latin1 id [LF]
           ltac:(discriminate) ltac:(left; reflexivity) setup_file
           (codepoints "version=") (codepoints "    version=0.1.2,"));
    [reflexivity | | reflexivity].
  intros c Hc. cbn in Hc.
  repeat (destruct Hc as [<-|Hc]; [split; discriminate|]). contradiction.
Defined.

(** The condition on the replacement is needed: with a line feed inside
    it, every run adds a line. *)
Example update_lines_grows :
  let run := fun content =>
    update_file isspace_latin1 id [LF] content (codepoints "version=")
      (codepoints "version=1" ++ [LF] ++ codepoints "foo") in
  let file := codepoints "version=0" ++ [LF] in
  fst (run file) = codepoints "version=1" ++ [LF] ++ codepoints "foo" ++ [LF]
  /\
  fst (run (fst (run file)))
  = codepoints "version=1" ++ [LF] ++ codepoints "foo" ++ [LF]
    ++ codepoints "foo" ++ [LF].
Proof. vm_compute. split; reflexivity. Qed.
